(** * Swift temporary URLs of the Glance image service

    A shallow embedding of [GlanceImageService] from
    [ironic/common/glance_service/v2/image_service.py]: the temporary URL
    cache, the container resolver, the configuration check and
    [swift_temp_url] itself, followed by the properties of the
    specification that concern them. *)

From Stdlib Require Import ZArith Ascii String List Lia Bool DecimalString.
From stdpp Require Import base option gmap strings list fin_maps.

Local Open Scope string_scope.
Local Open Scope Z_scope.

#[local] Arguments String.append !s1 s2 : simpl nomatch.

(** ** Python strings

    Identifiers, URLs and container names are sequences of 8-bit
    characters; [lower] is [str.lower] on the ASCII letters, which is all
    a UUID-like identifier contains. *)
Module PyStr.

Definition is_upper (c : ascii) : bool :=
  ((65 <=? Z.of_N (N_of_ascii c)) && (Z.of_N (N_of_ascii c) <=? 90))%Z.

Definition lower_char (c : ascii) : ascii :=
  if is_upper c then ascii_of_N (N_of_ascii c + 32) else c.

(** [s.lower()] *)
Fixpoint lower (s : string) : string :=
  match s with
  | EmptyString => EmptyString
  | String c s' => String (lower_char c) (lower s')
  end.

(** [s[:n]] for [n >= 0]: the first [n] characters, or all of [s] when it
    is shorter. *)
Fixpoint take (n : nat) (s : string) : string :=
  match n, s with
  | O, _ => EmptyString
  | S _, EmptyString => EmptyString
  | S n', String c s' => String c (take n' s')
  end.

(** [s[n:]] for [n >= 0]. *)
Fixpoint drop (n : nat) (s : string) : string :=
  match n, s with
  | O, _ => s
  | S _, EmptyString => EmptyString
  | S n', String _ s' => drop n' s'
  end.

(** [s.count(c)] for a one-character needle. *)
Fixpoint count (c : ascii) (s : string) : nat :=
  match s with
  | EmptyString => O
  | String d s' => (if Ascii.eqb d c then 1 else 0)%nat + count c s'
  end.

(** Number of characters of [s] other than [c]. *)
Fixpoint count_other (c : ascii) (s : string) : nat :=
  match s with
  | EmptyString => O
  | String d s' => (if Ascii.eqb d c then 0 else 1)%nat + count_other c s'
  end.

(** Python truthiness of an optional string: [None] and [''] are false. *)
Definition truthy (o : option string) : bool :=
  match o with
  | Some (String _ _) => true
  | _ => false
  end.

End PyStr.

(** ** Configuration: the [CONF.glance] options the service reads *)
Record Conf := {
  swift_temp_url_cache_enabled : bool;
  swift_temp_url_duration : Z;
  swift_temp_url_expected_download_start_delay : Z;
  swift_store_multiple_containers_seed : option Z;
  swift_container : string;
  swift_api_version : string;
  swift_endpoint_url : option string;
  swift_temp_url_key : option string;
  swift_account : option string
}.

(** ** Exceptions raised along [swift_temp_url] *)
Inductive exn :=
| InvalidParameterValue
| ImageUnacceptable
| MissingParameterValue
| KeyError
| ValueError
| TypeError.

(** ** Container resolver *)

(** The body of [_get_swift_container] for an integer seed. *)
Definition container_for_seed (seed_num_chars : Z) (container image_id : string)
  : string :=
  if 0 <? seed_num_chars then
    let image_id := PyStr.lower image_id in
    let num_dashes :=
      PyStr.count "-" (PyStr.take (Z.to_nat seed_num_chars) image_id) in
    let num_chars := seed_num_chars + Z.of_nat num_dashes in
    let name_suffix := PyStr.take (Z.to_nat num_chars) image_id in
    container ++ "_" ++ name_suffix
  else container.

(** [_get_swift_container]: the seed is read from the configuration; the
    comparison [seed_num_chars > 0] raises [TypeError] on [None]. *)
Definition _get_swift_container (conf : Conf) (image_id : string)
  : exn + string :=
  match swift_store_multiple_containers_seed conf with
  | None => inl TypeError
  | Some seed_num_chars =>
      inr (container_for_seed seed_num_chars (swift_container conf) image_id)
  end.

(** The suffix appended after [container ++ "_"] in multiple-container
    mode. *)
Definition name_suffix (seed_num_chars : Z) (image_id : string) : string :=
  let image_id := PyStr.lower image_id in
  PyStr.take
    (Z.to_nat (seed_num_chars
               + Z.of_nat (PyStr.count "-"
                             (PyStr.take (Z.to_nat seed_num_chars) image_id))))
    image_id.

(** ** The temporary URL cache and the record of outside calls *)

(** [TempUrlCacheElement = namedtuple(['url', 'url_expires_at'])] *)
Record TempUrlCacheElement := {
  url : string;
  url_expires_at : Z
}.

(** Calls that leave the service: the catalog lookup
    [adapter.get_endpoint()], [auth.get_auth_ref], [head_account()] and the
    signing primitive [swift_utils.generate_temp_url]. *)
Inductive event :=
| GetEndpoint
| GetAuthRef
| HeadAccount
| GenerateTempUrl (path : string) (seconds : Z) (key method : string).

(** The class attribute [_cache], shared by all calls, and the calls made
    so far, oldest first. *)
Record state := {
  _cache : gmap string TempUrlCacheElement;
  calls : list event
}.

Definition set_cache (c : gmap string TempUrlCacheElement) (st : state) : state :=
  {| _cache := c; calls := calls st |}.

Definition is_sign (e : event) : bool :=
  match e with
  | GenerateTempUrl _ _ _ _ => true
  | _ => false
  end.

(** Number of invocations of the signing primitive recorded in [st]. *)
Definition sign_calls (st : state) : nat :=
  length (List.filter is_sign (calls st)).

(** ** A state and exception monad for the methods of the service *)
Definition M (A : Type) : Type := state -> (exn + A) * state.

Definition ret {A} (a : A) : M A := fun st => (inr a, st).
Definition raise {A} (e : exn) : M A := fun st => (inl e, st).
Definition bind {A B} (m : M A) (k : A -> M B) : M B :=
  fun st =>
    match m st with
    | (inl e, st') => (inl e, st')
    | (inr a, st') => k a st'
    end.
Definition lift {A} (r : exn + A) : M A := fun st => (r, st).
Definition emit (e : event) : M unit :=
  fun st => (inr tt, {| _cache := _cache st; calls := calls st ++ [e] |}).
Definition get_cache : M (gmap string TempUrlCacheElement) :=
  fun st => (inr (_cache st), st).
Definition put_cache (c : gmap string TempUrlCacheElement) : M unit :=
  fun st => (inr tt, set_cache c st).

Declare Scope py_scope.
Delimit Scope py_scope with py.
Notation "'let*' x := m 'in' k" := (bind m (fun x => k))
  (at level 10, x name, m at level 100, k at level 200) : py_scope.
Notation "m ;;; k" := (bind m (fun _ => k))
  (at level 100, k at level 200, right associativity) : py_scope.
Local Open Scope py_scope.

(** ** What the service calls but does not define

    [oslo_utils.uuidutils.is_uuid_like], [swiftclient.utils.generate_temp_url]
    (which reads the clock, here its first argument), the lookup
    [dict(parse_qsl(urlparse(u).query))['temp_url_expires']] and [int]. *)
Class Libs := {
  is_uuid_like : string -> bool;
  generate_temp_url : Z -> string -> Z -> string -> string -> string;
  query_temp_url_expires : string -> option string;
  py_int : string -> option Z
}.

(** Answers of the Swift and Keystone services during one call. *)
Record Backend := {
  catalog_endpoint : option string;
  auth_project_id : string;
  account_temp_url_key : option string
}.

(** ** The pattern ['/v1/AUTH_[^/]+/?$'] and [re.sub] with it

    A backtracking matcher for this one pattern.  [$] matches at the end of
    the string and also just before a newline that ends the string. *)
Module Re.

Definition newline : ascii := ascii_of_N 10.

Fixpoint strip_prefix (p s : string) : option string :=
  match p, s with
  | EmptyString, _ => Some s
  | String a p', String b s' => if Ascii.eqb a b then strip_prefix p' s' else None
  | String _ _, EmptyString => None
  end.

(** [$] at the position where [r] remains. *)
Definition at_end (r : string) : bool :=
  match r with
  | EmptyString => true
  | String c EmptyString => Ascii.eqb c newline
  | _ => false
  end.

(** [/?$]: the slash is taken when it is there, given back when [$] then
    fails.  The result is the text left after the match. *)
Definition opt_slash_end (r : string) : option string :=
  match r with
  | String c r' =>
      if Ascii.eqb c "/" then
        if at_end r' then Some r' else if at_end r then Some r else None
      else if at_end r then Some r else None
  | EmptyString => Some r
  end.

(** [[^/]*] followed by [/?$], longest run first. *)
Fixpoint not_slash_star (r : string) : option string :=
  match r with
  | String c r' =>
      if Ascii.eqb c "/" then opt_slash_end r
      else match not_slash_star r' with
           | Some rest => Some rest
           | None => opt_slash_end r
           end
  | EmptyString => opt_slash_end r
  end.

(** [[^/]+/?$] *)
Definition not_slash_plus (r : string) : option string :=
  match r with
  | String c r' => if Ascii.eqb c "/" then None else not_slash_star r'
  | EmptyString => None
  end.

(** The whole pattern tried at the start of [s]. *)
Definition match_at (s : string) : option string :=
  match strip_prefix "/v1/AUTH_" s with
  | Some r => not_slash_plus r
  | None => None
  end.

(** [re.sub('/v1/AUTH_[^/]+/?$', '', s)]: the leftmost match is cut out.
    What is left after a match is empty or one newline, where the pattern
    cannot match again. *)
Fixpoint sub_auth (s : string) : string :=
  match match_at s with
  | Some rest => rest
  | None =>
      match s with
      | EmptyString => EmptyString
      | String c s' => String c (sub_auth s')
      end
  end.

(** An endpoint that ends in a segment [/v1/AUTH_<tenant>], with or
    without a slash after it. *)
Definition ends_with_auth (s : string) : Prop :=
  exists p t o,
    s = p ++ "/v1/AUTH_" ++ t ++ o /\ t <> EmptyString
    /\ PyStr.count "/" t = O /\ (o = EmptyString \/ o = "/").

(** The same, a newline that ends the string being passed over. *)
Definition ends_with_auth_nl (s : string) : Prop :=
  exists p t o,
    s = p ++ "/v1/AUTH_" ++ t ++ o /\ t <> EmptyString
    /\ PyStr.count "/" t = O
    /\ (o = EmptyString \/ o = "/" \/ o = String "/" (String newline EmptyString)).

End Re.

(** ** The methods of [GlanceImageService] *)
Section Service.

Context `{Libs}.

(** The list [keys_to_remove] built by [_remove_expired_items_from_cache]. *)
Definition keys_to_remove (max_valid_time : Z)
    (cache : gmap string TempUrlCacheElement) : list string :=
  (filter (fun kv => url_expires_at (snd kv) < max_valid_time)
          (map_to_list cache)).*1.

(** [for k in keys: del cache[k]] *)
Definition delete_keys (keys : list string)
    (cache : gmap string TempUrlCacheElement)
  : gmap string TempUrlCacheElement :=
  foldl (fun c k => delete k c) cache keys.

(** The cache as [_remove_expired_items_from_cache] leaves it. *)
Definition pruned (conf : Conf) (now : Z)
    (cache : gmap string TempUrlCacheElement)
  : gmap string TempUrlCacheElement :=
  delete_keys
    (keys_to_remove (now + swift_temp_url_expected_download_start_delay conf)
                    cache)
    cache.

(** [_remove_expired_items_from_cache]; [now] is [int(time.time())]. *)
Definition _remove_expired_items_from_cache (conf : Conf) (now : Z) : M unit :=
  let* cache := get_cache in
  let max_valid_time :=
    now + swift_temp_url_expected_download_start_delay conf in
  let keys_to_remove := keys_to_remove max_valid_time cache in
  put_cache (delete_keys keys_to_remove cache).

(** The URL the signing primitive and the endpoint give. *)
Definition signed_url (now : Z) (path : string) (seconds : Z)
    (key method endpoint : string) : string :=
  let path := generate_temp_url now path seconds key method in
  endpoint ++ path.

(** The expiry read back from a temporary URL: the [temp_url_expires]
    field of its query, through [int]. *)
Definition expiry_of (temp_url : string) : exn + Z :=
  match query_temp_url_expires temp_url with
  | None => inl KeyError
  | Some exp_time_str =>
      match py_int exp_time_str with
      | None => inl ValueError
      | Some exp => inr exp
      end
  end.

(** [_generate_temp_url] from the call of the signing primitive on: the
    part run when no cached URL was returned. *)
Definition sign_and_store (conf : Conf) (now : Z)
    (path : string) (seconds : Z) (key method endpoint image_id : string)
  : M string :=
  emit (GenerateTempUrl path seconds key method) ;;;
  let temp_url := signed_url now path seconds key method endpoint in
  if swift_temp_url_cache_enabled conf then
    let* exp := lift (expiry_of temp_url) in
    let* cache := get_cache in
    put_cache
      (<[image_id := {| url := temp_url; url_expires_at := exp |}]> cache) ;;;
    ret temp_url
  else ret temp_url.

(** [_generate_temp_url] *)
Definition _generate_temp_url (conf : Conf) (now : Z)
    (path : string) (seconds : Z) (key method endpoint image_id : string)
  : M string :=
  if swift_temp_url_cache_enabled conf then
    _remove_expired_items_from_cache conf now ;;;
    let* cache := get_cache in
    match cache !! image_id with
    | Some e => ret (url e)
    | None =>
        sign_and_store conf now path seconds key method endpoint image_id
    end
  else sign_and_store conf now path seconds key method endpoint image_id.

(** [_validate_temp_url_config] *)
Definition _validate_temp_url_config (conf : Conf) : M unit :=
  if swift_temp_url_duration conf
     <? swift_temp_url_expected_download_start_delay conf
  then raise InvalidParameterValue
  else
    match swift_store_multiple_containers_seed conf with
    | None => raise InvalidParameterValue
    | Some seed_num_chars =>
        if (seed_num_chars <? 0) || (32 <? seed_num_chars)
        then raise InvalidParameterValue
        else ret tt
    end.

(** Lines 134-138 of [swift_temp_url]: the configured endpoint, or the one
    of the service catalog when none is configured. *)
Definition resolve_endpoint (conf : Conf) (be : Backend) : M (option string) :=
  let endpoint_url := swift_endpoint_url conf in
  if negb (PyStr.truthy endpoint_url) then
    emit GetEndpoint ;;; ret (catalog_endpoint be)
  else ret endpoint_url.

(** Lines 150-154: the configured account, or [AUTH_<project id>]. *)
Definition resolve_account (conf : Conf) (be : Backend) : M string :=
  match swift_account conf with
  | Some (String a r) => ret (String a r)
  | _ => emit GetAuthRef ;;; ret ("AUTH_" ++ auth_project_id be)
  end.

(** Lines 149 and 156-159: the configured key, or the one of the account
    metadata when none is configured. *)
Definition resolve_key (conf : Conf) (be : Backend) : M (option string) :=
  let key := swift_temp_url_key conf in
  if negb (PyStr.truthy key) then
    emit HeadAccount ;;; ret (account_temp_url_key be)
  else ret key.

(** [swift_temp_url]; [image_info] is the dictionary Glance returned. *)
Definition swift_temp_url (conf : Conf) (be : Backend) (now : Z)
    (image_info : gmap string string) : M string :=
  _validate_temp_url_config conf ;;;
  match image_info !! "id" with
  | None => raise ImageUnacceptable
  | Some image_id =>
      if negb (is_uuid_like image_id) then raise ImageUnacceptable
      else
        let* container := lift (_get_swift_container conf image_id) in
        let* endpoint_url := resolve_endpoint conf be in
        match endpoint_url with
        | Some (String c e) =>
            let endpoint_url := Re.sub_auth (String c e) in
            let* account := resolve_account conf be in
            let* key := resolve_key conf be in
            match key with
            | Some (String k ks) =>
                let url_path :=
                  "/" ++ swift_api_version conf ++ "/" ++ account ++ "/"
                      ++ container ++ "/" ++ image_id in
                _generate_temp_url conf now url_path
                  (swift_temp_url_duration conf) (String k ks) "GET"
                  endpoint_url image_id
            | _ => raise MissingParameterValue
            end
        | _ => raise MissingParameterValue
        end
  end.

End Service.

(** ** What one call resolves, and the lookups it takes *)

(** [st] with the calls [es] added to its record. *)
Definition logged (es : list event) (st : state) : state :=
  {| _cache := _cache st; calls := calls st ++ es |}.

Definition resolved_endpoint (conf : Conf) (be : Backend) : option string :=
  if PyStr.truthy (swift_endpoint_url conf) then swift_endpoint_url conf
  else catalog_endpoint be.

Definition endpoint_lookups (conf : Conf) : list event :=
  if PyStr.truthy (swift_endpoint_url conf) then [] else [GetEndpoint].

Definition resolved_account (conf : Conf) (be : Backend) : string :=
  match swift_account conf with
  | Some (String a r) => String a r
  | _ => "AUTH_" ++ auth_project_id be
  end.

Definition account_lookups (conf : Conf) : list event :=
  if PyStr.truthy (swift_account conf) then [] else [GetAuthRef].

Definition resolved_key (conf : Conf) (be : Backend) : option string :=
  if PyStr.truthy (swift_temp_url_key conf) then swift_temp_url_key conf
  else account_temp_url_key be.

Definition key_lookups (conf : Conf) : list event :=
  if PyStr.truthy (swift_temp_url_key conf) then [] else [HeadAccount].

(** The three ways the pattern ends: at the end, on a slash at the end, or
    on a slash before a newline at the end, which is left in place. *)
Inductive tail_of_match : string -> string -> Prop :=
| tail_end : tail_of_match EmptyString EmptyString
| tail_slash : tail_of_match "/" EmptyString
| tail_slash_nl :
    tail_of_match (String "/" (String Re.newline EmptyString))
                  (String Re.newline EmptyString).

(** [be] with [e] as the endpoint of the service catalog. *)
Definition with_catalog (e : string) (be : Backend) : Backend :=
  {| catalog_endpoint := Some e;
     auth_project_id := auth_project_id be;
     account_temp_url_key := account_temp_url_key be |}.

(** The configuration passes [_validate_temp_url_config]. *)
Definition config_valid (conf : Conf) : Prop :=
  swift_temp_url_expected_download_start_delay conf
  <= swift_temp_url_duration conf
  /\ exists n, swift_store_multiple_containers_seed conf = Some n
               /\ 0 <= n <= 32.

(** The object path [/{api_version}/{account}/{container}/{object_id}]. *)
Definition object_path (conf : Conf) (be : Backend) (seed : Z)
    (image_id : string) : string :=
  "/" ++ swift_api_version conf ++ "/" ++ resolved_account conf be ++ "/"
      ++ container_for_seed seed (swift_container conf) image_id
      ++ "/" ++ image_id.

(** ** A concrete instance of the outside world, for evaluation

    A signer that appends the signature and expiry fields the way the Swift
    client lays them out, a reader of the [temp_url_expires] field, decimal
    [int], and a test for 32 hexadecimal digits with dashes allowed. *)
Module Sample.

Definition is_hex (c : ascii) : bool :=
  let n := Z.of_N (N_of_ascii c) in
  ((48 <=? n) && (n <=? 57)) || ((97 <=? n) && (n <=? 102))
  || ((65 <=? n) && (n <=? 70)).

Fixpoint all_hex_or_dash (s : string) : bool :=
  match s with
  | EmptyString => true
  | String c s' => (is_hex c || Ascii.eqb c "-") && all_hex_or_dash s'
  end.

Definition uuid_like (s : string) : bool :=
  all_hex_or_dash s && Nat.eqb (PyStr.count_other "-" s) 32.

Definition show_Z (z : Z) : string := NilZero.string_of_int (Z.to_int z).

Definition sign (now : Z) (path : string) (seconds : Z) (key method : string)
  : string :=
  path ++ "?temp_url_sig=" ++ method ++ key ++ "&temp_url_expires="
       ++ show_Z (now + seconds).

Fixpoint after (needle s : string) : option string :=
  match Re.strip_prefix needle s with
  | Some r => Some r
  | None =>
      match s with
      | EmptyString => None
      | String _ s' => after needle s'
      end
  end.

Definition read_int (s : string) : option Z :=
  match NilZero.int_of_string s with
  | Some d => Some (Z.of_int d)
  | None => None
  end.

#[global] Instance libs : Libs := {|
  is_uuid_like := uuid_like;
  generate_temp_url := sign;
  query_temp_url_expires := after "temp_url_expires=";
  py_int := read_int
|}.

Definition conf : Conf := {|
  swift_temp_url_cache_enabled := true;
  swift_temp_url_duration := 1200;
  swift_temp_url_expected_download_start_delay := 10;
  swift_store_multiple_containers_seed := Some 0;
  swift_container := "glance";
  swift_api_version := "v1";
  swift_endpoint_url := Some "https://swift.example";
  swift_temp_url_key := Some "secret";
  swift_account := Some "AUTH_acct"
|}.

Definition image_id : string := "3a1bcdef-0123-4567-89ab-cdef01234567".

Definition image_info : gmap string string := {[ "id" := image_id ]}.

Definition backend : Backend := {|
  catalog_endpoint := None;
  auth_project_id := "proj";
  account_temp_url_key := None
|}.

Definition empty_state : state := {| _cache := ∅; calls := [] |}.

(** A cache holding one URL for [image_id] that expires at [exp]. *)
Definition cached (exp : Z) : state :=
  {| _cache := {[ image_id := {| url := "https://swift.example/u";
                                 url_expires_at := exp |} ]};
     calls := [] |}.

Definition with_seed (n : Z) : Conf := {|
  swift_temp_url_cache_enabled := true;
  swift_temp_url_duration := 1200;
  swift_temp_url_expected_download_start_delay := 10;
  swift_store_multiple_containers_seed := Some n;
  swift_container := "glance";
  swift_api_version := "v1";
  swift_endpoint_url := Some "https://swift.example";
  swift_temp_url_key := Some "secret";
  swift_account := Some "AUTH_acct"
|}.


(** [conf] with no endpoint, with no key, and with a duration shorter than
    the start delay. *)
Definition without_endpoint : Conf := {|
  swift_temp_url_cache_enabled := true;
  swift_temp_url_duration := 1200;
  swift_temp_url_expected_download_start_delay := 10;
  swift_store_multiple_containers_seed := Some 0;
  swift_container := "glance";
  swift_api_version := "v1";
  swift_endpoint_url := None;
  swift_temp_url_key := Some "secret";
  swift_account := Some "AUTH_acct"
|}.

Definition without_key : Conf := {|
  swift_temp_url_cache_enabled := true;
  swift_temp_url_duration := 1200;
  swift_temp_url_expected_download_start_delay := 10;
  swift_store_multiple_containers_seed := Some 0;
  swift_container := "glance";
  swift_api_version := "v1";
  swift_endpoint_url := Some "https://swift.example";
  swift_temp_url_key := None;
  swift_account := Some "AUTH_acct"
|}.

Definition short_lived : Conf := {|
  swift_temp_url_cache_enabled := true;
  swift_temp_url_duration := 5;
  swift_temp_url_expected_download_start_delay := 10;
  swift_store_multiple_containers_seed := Some 0;
  swift_container := "glance";
  swift_api_version := "v1";
  swift_endpoint_url := Some "https://swift.example";
  swift_temp_url_key := Some "secret";
  swift_account := Some "AUTH_acct"
|}.

(** A backend whose catalog gives the endpoint [e]. *)
Definition catalog (e : string) : Backend := {|
  catalog_endpoint := Some e;
  auth_project_id := "proj";
  account_temp_url_key := None
|}.

End Sample.

(** ** [ironic/api/controllers/v1/utils.py]

    The helpers of the API controllers.  What they take from elsewhere
    ([CONF.api.max_limit], the version of the request, the node table, the
    conductor, [jsonpatch.apply_patch], [is_hostname_safe]) is a parameter. *)
Module Api.

(** The exceptions these helpers raise; [InvalidFields] is
    [InvalidParameterValue] with the set of fields it names. *)
Inductive api_exn :=
| ClientSideError (msg : string)
| PyKeyError
| InvalidUuidOrName (name : string)
| NodeNotFound (node : string)
| InvalidFields (invalid_fields : gset string)
| NotAcceptable.

(** [validate_limit]; [limit] is [None] or an integer. *)
Definition validate_limit (max_limit : Z) (limit : option Z) : api_exn + Z :=
  match limit with
  | None => inr max_limit
  | Some limit =>
      if limit <=? 0 then inl (ClientSideError "Limit must be positive")
      else inr (Z.min max_limit limit)
  end.

(** One operation of a JSON patch: the keys ['op'] and ['path'], which the
    patch type of the API requires, and ['value'], which a removal lacks. *)
Record patch_op (V : Type) := {
  p_op : string;
  p_path : string;
  p_value : option V
}.
Arguments p_op {V} _.
Arguments p_path {V} _.
Arguments p_value {V} _.

(** [s.lstrip(c)] for a one-character [c]. *)
Fixpoint lstrip (c : ascii) (s : string) : string :=
  match s with
  | EmptyString => EmptyString
  | String d s' => if Ascii.eqb d c then lstrip c s' else s
  end.

Definition new_attribute_msg (path : string) : string :=
  "Adding a new attribute (" ++ path
    ++ ") to the root of  the resource is not allowed".

(** The loop of [apply_jsonpatch]: the first addition at the root of an
    attribute the document lacks is refused. *)
Fixpoint check_root_additions {V} (doc : gmap string V)
    (patch : list (patch_op V)) : api_exn + unit :=
  match patch with
  | [] => inr tt
  | p :: rest =>
      if String.eqb (p_op p) "add"
         && Nat.eqb (PyStr.count "/" (p_path p)) 1
      then
        match doc !! lstrip "/" (p_path p) with
        | None => inl (ClientSideError (new_attribute_msg (p_path p)))
        | Some _ => check_root_additions doc rest
        end
      else check_root_additions doc rest
  end.

(** An addition at the root of an attribute [doc] does not have. *)
Definition adds_new_root_attribute {V} (doc : gmap string V) (p : patch_op V)
  : Prop :=
  p_op p = "add" /\ PyStr.count "/" (p_path p) = 1%nat
  /\ doc !! lstrip "/" (p_path p) = None.

(** [apply_jsonpatch]; [apply_patch] is [jsonpatch.apply_patch]. *)
Definition apply_jsonpatch {V R} (apply_patch : gmap string V -> list (patch_op V) -> R)
    (doc : gmap string V) (patch : list (patch_op V)) : api_exn + R :=
  match check_root_additions doc patch with
  | inl e => inl e
  | inr _ => inr (apply_patch doc patch)
  end.

(** [get_patch_value]: [inr None] is the [None] returned when the loop
    ends; [p['value']] raises [KeyError] where the key is missing. *)
Fixpoint get_patch_value {V} (patch : list (patch_op V)) (path : string)
  : api_exn + option V :=
  match patch with
  | [] => inr None
  | p :: rest =>
      if String.eqb (p_path p) path then
        match p_value p with
        | Some v => inr (Some v)
        | None => inl PyKeyError
        end
      else get_patch_value rest path
  end.

(** [allow_node_logical_names]; [minor] is [pecan.request.version.minor]. *)
Definition allow_node_logical_names (minor : Z) : bool := 5 <=? minor.

(** The node table and [utils.is_hostname_safe]; a lookup that finds
    nothing raises [NodeNotFound]. *)
Class Nodes (Node : Type) := {
  get_by_uuid : string -> option Node;
  get_by_name : string -> option Node;
  is_hostname_safe : string -> bool
}.

Section NodeLookup.

Context `{Libs} {Node : Type} `{Nodes Node}.

(** [get_rpc_node] *)
Definition get_rpc_node (minor : Z) (node_ident : string) : api_exn + Node :=
  if is_uuid_like node_ident then
    match get_by_uuid node_ident with
    | Some node => inr node
    | None => inl (NodeNotFound node_ident)
    end
  else if allow_node_logical_names minor then
    if is_hostname_safe node_ident then
      match get_by_name node_ident with
      | Some node => inr node
      | None => inl (NodeNotFound node_ident)
      end
    else inl (InvalidUuidOrName node_ident)
  else inl (NodeNotFound node_ident).

(** [is_valid_node_name] *)
Definition is_valid_node_name (name : string) : bool :=
  is_hostname_safe name && negb (is_uuid_like name).

End NodeLookup.

(** [check_for_invalid_fields]; a set is true when it is not empty. *)
Definition check_for_invalid_fields (fields object_fields : list string)
  : api_exn + unit :=
  let invalid_fields : gset string :=
    list_to_set fields ∖ list_to_set object_fields in
  if decide (invalid_fields = ∅) then inr tt
  else inl (InvalidFields invalid_fields).

Definition is_lower (c : ascii) : bool :=
  ((97 <=? Z.of_N (N_of_ascii c)) && (Z.of_N (N_of_ascii c) <=? 122))%Z.

Definition upper_char (c : ascii) : ascii :=
  if is_lower c then ascii_of_N (N_of_ascii c - 32) else c.

(** [s.upper()], on the ASCII letters. *)
Fixpoint upper (s : string) : string :=
  match s with
  | EmptyString => EmptyString
  | String c s' => String (upper_char c) (upper s')
  end.

Section VendorPassthru.

(** The request context, the data of the call and the values a vendor
    method returns other than text. *)
Variables (Ctx Data Val : Type).

(** [{}] and [text.encode('utf-8')]. *)
Variable empty_data : Data.
Variable encode_utf8 : string -> Val.

Inductive return_value :=
| Text (s : string)
| Other (v : Val).

(** The tuple [params]. *)
Record rpc_params := {
  rp_context : Ctx;
  rp_ident : string;
  rp_method : string;
  rp_http_method : string;
  rp_data : Data;
  rp_topic : string
}.

Inductive rpc_call :=
| DriverVendorPassthru (params : rpc_params)
| NodeVendorPassthru (params : rpc_params).

(** The dictionary the conductor answers with: ['async'], ['return'], and
    whether ['attach'] is there and true. *)
Record rpc_response := {
  resp_async : bool;
  resp_return : return_value;
  resp_attach : bool
}.

(** [wsme.api.Response(return_value, status_code=..., [return_type=None])] *)
Record wsme_response := {
  body : option return_value;
  status_code : Z;
  return_type_none : bool
}.

(** What a call leaves: the response or the error, the content given to
    [pecan.response.app_iter] if any, and the calls made to the conductor. *)
Record outcome := {
  result : api_exn + wsme_response;
  app_iter : option Val;
  rpc_calls : list rpc_call
}.

Variable rpcapi : rpc_call -> rpc_response.

(** [vendor_passthru]; [request_method] is [pecan.request.method]. *)
Definition vendor_passthru (context : Ctx) (request_method : string)
    (ident method topic : string) (data : option Data)
    (driver_passthru : bool) : outcome :=
  match method with
  | EmptyString =>
      {| result := inl (ClientSideError "Method not specified");
         app_iter := None; rpc_calls := [] |}
  | String _ _ =>
      let data := match data with None => empty_data | Some d => d end in
      let http_method := upper request_method in
      let params :=
        {| rp_context := context; rp_ident := ident; rp_method := method;
           rp_http_method := http_method; rp_data := data;
           rp_topic := topic |} in
      let call :=
        if driver_passthru then DriverVendorPassthru params
        else NodeVendorPassthru params in
      let response := rpcapi call in
      let status_code := if resp_async response then 202 else 200 in
      let return_value := resp_return response in
      if resp_attach response then
        let content :=
          match return_value with
          | Text s => encode_utf8 s
          | Other v => v
          end in
        {| result := inr {| body := None; status_code := status_code;
                            return_type_none := true |};
           app_iter := Some content; rpc_calls := [call] |}
      else
        {| result := inr {| body := Some return_value;
                            status_code := status_code;
                            return_type_none := false |};
           app_iter := None; rpc_calls := [call] |}
  end.

End VendorPassthru.

End Api.

(** ** More concrete cases, for evaluation *)
Module Cases.

(** [Sample.conf] with the cache switched off. *)
Definition uncached : Conf := {|
  swift_temp_url_cache_enabled := false;
  swift_temp_url_duration := 1200;
  swift_temp_url_expected_download_start_delay := 10;
  swift_store_multiple_containers_seed := Some 0;
  swift_container := "glance";
  swift_api_version := "v1";
  swift_endpoint_url := Some "https://swift.example";
  swift_temp_url_key := Some "secret";
  swift_account := Some "AUTH_acct"
|}.

(** A cache with one live and one stale entry at time 95, delay 10. *)
Definition two_entries : gmap string TempUrlCacheElement :=
  {[ "a" := {| url := "https://h/a"; url_expires_at := 100 |};
     "b" := {| url := "https://h/b"; url_expires_at := 2000 |} ]}.

Definition upper_id : string := "3A1BCDEF-0123-4567-89AB-CDEF01234567".

(** A node table with one node, named [node-1]. *)
#[global] Instance nodes : Api.Nodes nat := {|
  Api.get_by_uuid := fun u => if String.eqb u Sample.image_id then Some 7%nat else None;
  Api.get_by_name := fun n => if String.eqb n "node-1" then Some 7%nat else None;
  Api.is_hostname_safe := fun n => negb (String.eqb n EmptyString)
|}.

Definition doc : gmap string nat := {[ "name" := 1%nat; "extra" := 2%nat ]}.

Definition add_op (path : string) : Api.patch_op nat :=
  {| Api.p_op := "add"; Api.p_path := path; Api.p_value := Some 5%nat |}.

Definition remove_op (path : string) : Api.patch_op nat :=
  {| Api.p_op := "remove"; Api.p_path := path; Api.p_value := None |}.

(** A conductor that answers every call with the text [done], attached
    for driver calls only. *)
Definition conductor (c : Api.rpc_call unit unit) : Api.rpc_response string :=
  match c with
  | Api.DriverVendorPassthru _ _ _ =>
      {| Api.resp_async := false; Api.resp_return := Api.Text string "done";
         Api.resp_attach := true |}
  | Api.NodeVendorPassthru _ _ _ =>
      {| Api.resp_async := true; Api.resp_return := Api.Text string "done";
         Api.resp_attach := false |}
  end.

End Cases.

(** ** The container resolver in the words of the specification

    Lowercase the identifier, take its first [seedLength] characters, count
    the separators among them, take that many characters more, and join
    the result to [baseName] with an underscore; on lists of characters. *)
Definition resolveContainer (objectId baseName : string) (seedLength : nat)
  : string :=
  match seedLength with
  | O => baseName
  | S _ =>
      let lowered := PyStr.lower_char <$> list_ascii_of_string objectId in
      let window := take seedLength lowered in
      let separators := length (filter (fun c => c = "-"%char) window) in
      baseName ++ "_"
        ++ string_of_list_ascii (take (seedLength + separators) lowered)
  end.

(** * Properties *)

(** ** Strings *)
Section StringFacts.

Lemma str_app_nil_r (a : string) : a ++ EmptyString = a.
Proof. induction a as [|x a IH]; simpl; [reflexivity | now rewrite IH]. Qed.

Lemma length_lower (s : string) : String.length (PyStr.lower s) = String.length s.
Proof. induction s as [|c s IH]; simpl; [reflexivity | now rewrite IH]. Qed.

Lemma length_take (n : nat) (s : string) :
  String.length (PyStr.take n s) = Nat.min n (String.length s).
Proof.
  revert s; induction n as [|n IH]; intros [|c s]; simpl; try reflexivity.
  now rewrite IH.
Qed.

Lemma length_drop (n : nat) (s : string) :
  String.length (PyStr.drop n s) = (String.length s - n)%nat.
Proof.
  revert s; induction n as [|n IH]; intros [|c s]; simpl; try reflexivity.
  apply IH.
Qed.

Lemma take_add (a b : nat) (s : string) :
  PyStr.take (a + b) s = PyStr.take a s ++ PyStr.take b (PyStr.drop a s).
Proof.
  revert s; induction a as [|a IH]; intros s; simpl.
  - reflexivity.
  - destruct s as [|c s]; simpl.
    + now destruct b.
    + now rewrite IH.
Qed.

Lemma count_other_app (c : ascii) (a b : string) :
  PyStr.count_other c (a ++ b)
  = (PyStr.count_other c a + PyStr.count_other c b)%nat.
Proof. induction a as [|d a IH]; simpl; [reflexivity | rewrite IH; lia]. Qed.

Lemma count_app (c : ascii) (a b : string) :
  PyStr.count c (a ++ b) = (PyStr.count c a + PyStr.count c b)%nat.
Proof. induction a as [|d a IH]; simpl; [reflexivity | rewrite IH; lia]. Qed.

Lemma count_split (c : ascii) (s : string) :
  (PyStr.count c s + PyStr.count_other c s)%nat = String.length s.
Proof.
  induction s as [|d s IH]; simpl; [reflexivity|].
  destruct (Ascii.eqb d c); simpl; lia.
Qed.

Lemma take_as_list (n : nat) (s : string) :
  PyStr.take n s = string_of_list_ascii (take n (list_ascii_of_string s)).
Proof.
  revert s; induction n as [|n IH]; intros [|c s]; simpl; try reflexivity.
  now rewrite IH.
Qed.

Lemma lower_as_list (s : string) :
  list_ascii_of_string (PyStr.lower s)
  = PyStr.lower_char <$> list_ascii_of_string s.
Proof. induction s as [|c s IH]; simpl; [reflexivity | now rewrite IH]. Qed.

Lemma count_as_list (c : ascii) (l : list ascii) :
  PyStr.count c (string_of_list_ascii l) = length (filter (fun d => d = c) l).
Proof.
  induction l as [|d l IH]; simpl; [reflexivity|].
  rewrite IH. destruct (Ascii.eqb_spec d c) as [->|Hne].
  - rewrite filter_cons_True by reflexivity. reflexivity.
  - rewrite filter_cons_False by assumption. reflexivity.
Qed.

End StringFacts.

(** ** Container resolver *)
Section Container.

Lemma container_for_seed_pos (n : Z) (container image_id : string) :
  0 < n ->
  container_for_seed n container image_id
  = container ++ "_" ++ name_suffix n image_id.
Proof.
  intros Hn. unfold container_for_seed, name_suffix.
  destruct (Z.ltb_spec 0 n) as [_|Hle]; [reflexivity | lia].
Qed.

Lemma name_suffix_as_list (n : Z) (image_id : string) :
  0 < n ->
  name_suffix n image_id
  = let lowered := PyStr.lower_char <$> list_ascii_of_string image_id in
    string_of_list_ascii
      (take (Z.to_nat n
             + length (filter (fun c => c = "-"%char)
                              (take (Z.to_nat n) lowered)))%nat
            lowered).
Proof.
  intros Hn. unfold name_suffix. cbv zeta.
  rewrite !take_as_list, !lower_as_list, count_as_list.
  f_equal. f_equal. lia.
Qed.

(** C2. With seed 0 the container is the base name; with a positive seed it
    is the base name, an underscore, and the prefix of the lowercased
    identifier that the specification describes; the two examples of the
    specification hold whatever follows the shown characters. *)
Theorem get_swift_container_resolves (conf : Conf) (image_id : string) (n : Z)
    (Hseed : swift_store_multiple_containers_seed conf = Some n)
    (Hn : 0 <= n) :
  _get_swift_container conf image_id
  = inr (resolveContainer image_id (swift_container conf) (Z.to_nat n))
  /\ (n = 0 -> _get_swift_container conf image_id = inr (swift_container conf))
  /\ (0 < n ->
      _get_swift_container conf image_id
      = inr (swift_container conf ++ "_"
             ++ PyStr.take
                  (Z.to_nat n
                   + PyStr.count "-"
                       (PyStr.take (Z.to_nat n) (PyStr.lower image_id)))%nat
                  (PyStr.lower image_id)))
  /\ (forall rest,
        container_for_seed 3 "glance" ("3a1bcd-ef01-" ++ rest) = "glance_3a1")
  /\ (forall base rest,
        container_for_seed 4 base ("ab-cdef" ++ rest) = base ++ "_ab-cd").
Proof.
  unfold _get_swift_container. rewrite Hseed.
  split; [|split; [|split; [|split]]].
  - destruct (Z.eq_dec n 0) as [->|Hne]; [reflexivity|].
    rewrite container_for_seed_pos by lia.
    rewrite name_suffix_as_list by lia.
    unfold resolveContainer. destruct (Z.to_nat n) eqn:E; [lia|]. reflexivity.
  - intros ->. reflexivity.
  - intros Hpos. rewrite container_for_seed_pos by assumption.
    unfold name_suffix. repeat f_equal. lia.
  - intros rest. reflexivity.
  - intros base rest. reflexivity.
Qed.

Lemma get_swift_container_resolves_witness :
  _get_swift_container (Sample.with_seed 9) Sample.image_id
  = inr "glance_3a1bcdef-0".
Proof.
  destruct (get_swift_container_resolves (Sample.with_seed 9) Sample.image_id 9)
    as [Hr _]; [reflexivity | lia |].
  rewrite Hr. reflexivity.
Defined.

(** X10. The suffix never holds more than [seedLength] characters other
    than the separator. *)
Lemma name_suffix_at_most (n : Z) (image_id : string) :
  0 < n ->
  (PyStr.count_other "-" (name_suffix n image_id) <= Z.to_nat n)%nat.
Proof.
  intros Hn. unfold name_suffix. cbv zeta.
  set (low := PyStr.lower image_id).
  set (d := PyStr.count "-" (PyStr.take (Z.to_nat n) low)).
  replace (Z.to_nat (n + Z.of_nat d)) with (Z.to_nat n + d)%nat by lia.
  rewrite take_add, count_other_app.
  pose proof (count_split "-" (PyStr.take (Z.to_nat n) low)) as H1.
  pose proof (count_split "-" (PyStr.take d (PyStr.drop (Z.to_nat n) low))) as H2.
  rewrite length_take in H1, H2. fold d in H1. lia.
Qed.

(** C3, as the code has it. For a seed in [1, 32], the suffix holds exactly
    [seedLength] characters other than the separator when the identifier
    has [seedLength + d] characters, [d] being the number of separators in
    the window, and none of the [d] characters after the window is a
    separator. *)
Theorem name_suffix_non_separators (conf : Conf) (image_id : string) (n : Z)
    (Hseed : swift_store_multiple_containers_seed conf = Some n)
    (Hn : 1 <= n <= 32)
    (Hlen : (Z.to_nat n
             + PyStr.count "-" (PyStr.take (Z.to_nat n) (PyStr.lower image_id))
             <= String.length image_id)%nat)
    (Hext : PyStr.count "-"
              (PyStr.take
                 (PyStr.count "-"
                    (PyStr.take (Z.to_nat n) (PyStr.lower image_id)))
                 (PyStr.drop (Z.to_nat n) (PyStr.lower image_id))) = O) :
  _get_swift_container conf image_id
  = inr (swift_container conf ++ "_" ++ name_suffix n image_id)
  /\ PyStr.count_other "-" (name_suffix n image_id) = Z.to_nat n.
Proof.
  split.
  - unfold _get_swift_container. rewrite Hseed.
    now rewrite container_for_seed_pos by lia.
  - unfold name_suffix. cbv zeta.
    set (low := PyStr.lower image_id) in *.
    set (d := PyStr.count "-" (PyStr.take (Z.to_nat n) low)) in *.
    replace (Z.to_nat (n + Z.of_nat d)) with (Z.to_nat n + d)%nat by lia.
    rewrite take_add, count_other_app.
    pose proof (count_split "-" (PyStr.take (Z.to_nat n) low)) as H1.
    pose proof (count_split "-" (PyStr.take d (PyStr.drop (Z.to_nat n) low)))
      as H2.
    rewrite length_take in H1, H2. rewrite length_drop in H2.
    assert (String.length low = String.length image_id) as Hl
      by apply length_lower.
    fold d in H1. lia.
Qed.

Lemma name_suffix_non_separators_witness :
  _get_swift_container (Sample.with_seed 9) Sample.image_id
  = inr (swift_container (Sample.with_seed 9) ++ "_"
         ++ name_suffix 9 Sample.image_id)
  /\ PyStr.count_other "-" (name_suffix 9 Sample.image_id) = 9%nat.
Proof.
  apply (name_suffix_non_separators (Sample.with_seed 9) Sample.image_id 9).
  - reflexivity.
  - lia.
  - vm_compute. lia.
  - reflexivity.
Defined.

(** C3 as stated fails on a canonical UUID with seed 13: the window holds
    one separator, and the one character it is extended by is the second
    separator, so the suffix holds 12 other characters. *)
Lemma name_suffix_counterexample :
  1 <= 13 <= 32
  /\ (13 <= String.length Sample.image_id)%nat
  /\ _get_swift_container (Sample.with_seed 13) Sample.image_id
     = inr ("glance" ++ "_" ++ "3a1bcdef-0123-")
  /\ name_suffix 13 Sample.image_id = "3a1bcdef-0123-"
  /\ PyStr.count_other "-" (name_suffix 13 Sample.image_id) = 12%nat
  /\ PyStr.count_other "-" (name_suffix 13 Sample.image_id) <> 13%nat.
Proof.
  split; [lia|]. split; [vm_compute; lia|]. split; [reflexivity|].
  split; [reflexivity|]. split; [reflexivity|].
  vm_compute. lia.
Qed.

End Container.

(** ** The temporary URL cache *)
Section Cache.

Context `{Libs}.

Implicit Types (c : gmap string TempUrlCacheElement) (st : state).

Lemma delete_keys_lookup (ks : list string) c (k : string) :
  delete_keys ks c !! k = if decide (k ∈ ks) then None else c !! k.
Proof.
  unfold delete_keys. revert c.
  induction ks as [|k0 ks IH]; intros c; simpl.
  - destruct (decide (k ∈ [])) as [Hin|_]; [|reflexivity].
    now apply elem_of_nil in Hin.
  - rewrite IH.
    destruct (decide (k ∈ ks)) as [Hin|Hin];
      destruct (decide (k ∈ k0 :: ks)) as [Hin'|Hin']; try reflexivity.
    + exfalso. apply Hin'. now apply list_elem_of_further.
    + apply elem_of_cons in Hin' as [->|Hin']; [|contradiction].
      apply lookup_delete_eq.
    + apply lookup_delete_ne. intros ->. apply Hin'. apply list_elem_of_here.
Qed.

Lemma keys_to_remove_elem (m : Z) c (k : string) :
  k ∈ keys_to_remove m c
  <-> exists v, c !! k = Some v /\ url_expires_at v < m.
Proof.
  unfold keys_to_remove. rewrite list_elem_of_fmap. split.
  - intros [[k' v] [-> Hin]]. apply list_elem_of_filter in Hin as [Hlt Hin].
    apply elem_of_map_to_list in Hin. exists v. split; assumption.
  - intros [v [Hk Hlt]]. exists (k, v). split; [reflexivity|].
    apply list_elem_of_filter. split; [exact Hlt|].
    now apply elem_of_map_to_list.
Qed.

(** What [_remove_expired_items_from_cache] keeps: the entries that expire
    at [now + delay] or later. *)
Lemma pruned_lookup_Some (conf : Conf) (now : Z) c (k : string)
    (v : TempUrlCacheElement) :
  pruned conf now c !! k = Some v
  <-> c !! k = Some v
      /\ now + swift_temp_url_expected_download_start_delay conf
         <= url_expires_at v.
Proof.
  unfold pruned. rewrite delete_keys_lookup. case_decide as Hin.
  - apply keys_to_remove_elem in Hin as [w [Hw Hlt]]. split; [discriminate|].
    intros [Hk Hle]. rewrite Hk in Hw. injection Hw as <-. lia.
  - split; [|tauto]. intros Hk. split; [assumption|].
    destruct (Z.le_gt_cases
                (now + swift_temp_url_expected_download_start_delay conf)
                (url_expires_at v)) as [Hle|Hgt]; [assumption|].
    exfalso. apply Hin. apply keys_to_remove_elem. exists v. split; [assumption | lia].
Qed.

Lemma pruned_lookup_stale (conf : Conf) (now : Z) c (k : string)
    (v : TempUrlCacheElement) :
  c !! k = Some v ->
  url_expires_at v < now + swift_temp_url_expected_download_start_delay conf ->
  pruned conf now c !! k = None.
Proof.
  intros Hk Hlt. destruct (pruned conf now c !! k) as [w|] eqn:E; [|reflexivity].
  apply pruned_lookup_Some in E as [Hw Hle]. rewrite Hk in Hw.
  injection Hw as <-. lia.
Qed.

Lemma pruned_lookup_live (conf : Conf) (now : Z) c (k : string)
    (v : TempUrlCacheElement) :
  c !! k = Some v ->
  now + swift_temp_url_expected_download_start_delay conf <= url_expires_at v ->
  pruned conf now c !! k = Some v.
Proof. intros Hk Hle. apply pruned_lookup_Some. split; assumption. Qed.

Lemma remove_expired_run (conf : Conf) (now : Z) st :
  _remove_expired_items_from_cache conf now st
  = (inr tt, set_cache (pruned conf now (_cache st)) st).
Proof. reflexivity. Qed.

(** The state and the result after the signing primitive was called. *)
Lemma sign_and_store_run (conf : Conf) (now : Z) (path : string) (seconds : Z)
    (key method endpoint image_id : string) st :
  sign_and_store conf now path seconds key method endpoint image_id st
  = let u := signed_url now path seconds key method endpoint in
    let log := (calls st ++ [GenerateTempUrl path seconds key method])%list in
    if swift_temp_url_cache_enabled conf then
      match expiry_of u with
      | inl e => (inl e, {| _cache := _cache st; calls := log |})
      | inr exp =>
          (inr u,
           {| _cache := <[image_id := {| url := u; url_expires_at := exp |}]>
                          (_cache st);
              calls := log |})
      end
    else (inr u, {| _cache := _cache st; calls := log |}).
Proof.
  unfold sign_and_store, bind, emit, lift, get_cache, put_cache, ret, set_cache.
  cbn. destruct (swift_temp_url_cache_enabled conf); [|reflexivity].
  destruct (expiry_of _); reflexivity.
Qed.

Lemma generate_temp_url_enabled (conf : Conf) (now : Z) (path : string)
    (seconds : Z) (key method endpoint image_id : string) st :
  swift_temp_url_cache_enabled conf = true ->
  _generate_temp_url conf now path seconds key method endpoint image_id st
  = match pruned conf now (_cache st) !! image_id with
    | Some e => (inr (url e), set_cache (pruned conf now (_cache st)) st)
    | None =>
        sign_and_store conf now path seconds key method endpoint image_id
          (set_cache (pruned conf now (_cache st)) st)
    end.
Proof.
  intros Hen. unfold _generate_temp_url. rewrite Hen.
  unfold bind at 1. rewrite remove_expired_run.
  unfold bind, get_cache. cbn.
  destruct (pruned conf now (_cache st) !! image_id); reflexivity.
Qed.

Lemma generate_temp_url_disabled (conf : Conf) (now : Z) (path : string)
    (seconds : Z) (key method endpoint image_id : string) st :
  swift_temp_url_cache_enabled conf = false ->
  _generate_temp_url conf now path seconds key method endpoint image_id st
  = (inr (signed_url now path seconds key method endpoint),
     {| _cache := _cache st;
        calls := (calls st ++ [GenerateTempUrl path seconds key method])%list |}).
Proof.
  intros Hen. unfold _generate_temp_url. rewrite Hen.
  rewrite sign_and_store_run, Hen. reflexivity.
Qed.

Lemma sign_calls_snoc st c (e : event) :
  sign_calls {| _cache := c; calls := (calls st ++ [e])%list |}
  = ((if is_sign e then 1 else 0) + sign_calls st)%nat.
Proof.
  unfold sign_calls. cbn [calls]. rewrite List.filter_app, List.length_app.
  destruct e; cbn; lia.
Qed.

Lemma snoc_neq {A} (l : list A) (x : A) : (l ++ [x])%list <> l.
Proof.
  intros Heq. apply (f_equal (@length A)) in Heq.
  rewrite List.length_app in Heq. simpl in Heq. lia.
Qed.

(** A live entry is returned as it is; the cache is only pruned. *)
Lemma generate_temp_url_hit (conf : Conf) (now : Z) (path : string)
    (seconds : Z) (key method endpoint image_id : string) st
    (e : TempUrlCacheElement) :
  swift_temp_url_cache_enabled conf = true ->
  _cache st !! image_id = Some e ->
  now + swift_temp_url_expected_download_start_delay conf <= url_expires_at e ->
  _generate_temp_url conf now path seconds key method endpoint image_id st
  = (inr (url e), set_cache (pruned conf now (_cache st)) st).
Proof.
  intros Hen He Hle. rewrite generate_temp_url_enabled by assumption.
  now rewrite (pruned_lookup_live conf now _ _ e He Hle).
Qed.

(** A stale entry is dropped and the URL is signed anew. *)
Lemma generate_temp_url_miss (conf : Conf) (now : Z) (path : string)
    (seconds : Z) (key method endpoint image_id : string) st
    (e : TempUrlCacheElement) :
  swift_temp_url_cache_enabled conf = true ->
  _cache st !! image_id = Some e ->
  url_expires_at e < now + swift_temp_url_expected_download_start_delay conf ->
  pruned conf now (_cache st) !! image_id = None
  /\ _generate_temp_url conf now path seconds key method endpoint image_id st
     = sign_and_store conf now path seconds key method endpoint image_id
         (set_cache (pruned conf now (_cache st)) st).
Proof.
  intros Hen He Hlt.
  pose proof (pruned_lookup_stale conf now _ _ e He Hlt) as Hp.
  split; [exact Hp|].
  rewrite generate_temp_url_enabled by assumption. now rewrite Hp.
Qed.

(** C1, as the code has it. With caching enabled and an entry cached for
    the identifier, the cached URL is returned, without a call of the
    signing primitive, exactly when the entry expires at
    [now + delay] or later; when it expires earlier the entry is removed,
    the signing primitive is called once and its URL is returned and
    cached. *)
Theorem cached_url_returned_iff_live (conf : Conf) (now : Z) (path : string)
    (seconds : Z) (key method endpoint image_id : string) st
    (e : TempUrlCacheElement)
    (Hen : swift_temp_url_cache_enabled conf = true)
    (He : _cache st !! image_id = Some e) :
  let r :=
    _generate_temp_url conf now path seconds key method endpoint image_id st in
  let delay := swift_temp_url_expected_download_start_delay conf in
  let u := signed_url now path seconds key method endpoint in
  (calls (snd r) = calls st <-> now + delay <= url_expires_at e)
  /\ (now + delay <= url_expires_at e ->
      fst r = inr (url e)
      /\ _cache (snd r) !! image_id = Some e
      /\ sign_calls (snd r) = sign_calls st)
  /\ (url_expires_at e < now + delay ->
      pruned conf now (_cache st) !! image_id = None
      /\ r = sign_and_store conf now path seconds key method endpoint image_id
               (set_cache (pruned conf now (_cache st)) st)
      /\ calls (snd r)
         = (calls st ++ [GenerateTempUrl path seconds key method])%list
      /\ sign_calls (snd r) = S (sign_calls st)
      /\ fst r = match expiry_of u with inr _ => inr u | inl x => inl x end
      /\ _cache (snd r) !! image_id
         = match expiry_of u with
           | inr exp => Some {| url := u; url_expires_at := exp |}
           | inl _ => None
           end).
Proof.
  intros r delay u.
  assert (Hlive : now + delay <= url_expires_at e ->
                  r = (inr (url e), set_cache (pruned conf now (_cache st)) st)).
  { intros Hle. now apply generate_temp_url_hit. }
  assert (Hstale : url_expires_at e < now + delay ->
            pruned conf now (_cache st) !! image_id = None
            /\ r = sign_and_store conf now path seconds key method endpoint
                     image_id (set_cache (pruned conf now (_cache st)) st)).
  { intros Hlt. now apply (generate_temp_url_miss conf now path seconds key
                             method endpoint image_id st e). }
  assert (Hcalls : url_expires_at e < now + delay ->
            calls (snd r)
            = (calls st ++ [GenerateTempUrl path seconds key method])%list).
  { intros Hlt. destruct (Hstale Hlt) as [_ ->].
    rewrite sign_and_store_run, Hen. cbv zeta.
    destruct (expiry_of _); reflexivity. }
  split; [|split].
  - split.
    + intros Heq.
      destruct (Z.le_gt_cases (now + delay) (url_expires_at e)) as [Hle|Hgt];
        [assumption|].
      exfalso. rewrite Hcalls in Heq by lia. exact (snoc_neq _ _ Heq).
    + intros Hle. now rewrite (Hlive Hle).
  - intros Hle. rewrite (Hlive Hle). cbn [fst snd set_cache _cache].
    split; [reflexivity|]. split; [|reflexivity].
    now apply pruned_lookup_live.
  - intros Hlt. destruct (Hstale Hlt) as [Hp Hr].
    split; [exact Hp|]. split; [exact Hr|]. split; [exact (Hcalls Hlt)|].
    rewrite Hr, sign_and_store_run, Hen. cbv zeta. fold u.
    destruct (expiry_of u) as [x|exp]; cbn [fst snd _cache].
    + split; [apply (sign_calls_snoc (set_cache _ st))|].
      split; [reflexivity | exact Hp].
    + split; [apply (sign_calls_snoc (set_cache _ st))|].
      split; [reflexivity | apply lookup_insert_eq].
Qed.

End Cache.

Lemma cached_url_returned_iff_live_witness :
  let r :=
    _generate_temp_url Sample.conf 95 "/v1/a/c/o" 1200 "k" "GET" "https://h"
      Sample.image_id (Sample.cached 100) in
  calls (snd r) = [GenerateTempUrl "/v1/a/c/o" 1200 "k" "GET"]
  /\ fst r = inr "https://h/v1/a/c/o?temp_url_sig=GETk&temp_url_expires=1295".
Proof.
  destruct (cached_url_returned_iff_live Sample.conf 95 "/v1/a/c/o" 1200 "k"
              "GET" "https://h" Sample.image_id (Sample.cached 100)
              {| url := "https://swift.example/u"; url_expires_at := 100 |})
    as (_ & _ & Hstale); [reflexivity | reflexivity |].
  destruct Hstale as (_ & _ & Hc & _ & Hf & _); [cbn; lia|].
  split; [exact Hc | exact Hf].
Defined.

(** C1 as stated fails where the entry expires exactly at [now + delay]:
    the cached URL is returned and the signing primitive is not called,
    though the expiry is not strictly later. *)
Lemma cached_url_strict_counterexample :
  let st := Sample.cached 100 in
  let r :=
    _generate_temp_url Sample.conf 90 "/v1/a/c/o" 1200 "k" "GET" "https://h"
      Sample.image_id st in
  swift_temp_url_cache_enabled Sample.conf = true
  /\ _cache st !! Sample.image_id
     = Some {| url := "https://swift.example/u"; url_expires_at := 100 |}
  /\ fst r = inr "https://swift.example/u"
  /\ calls (snd r) = calls st
  /\ ~ (100 > 90 + swift_temp_url_expected_download_start_delay Sample.conf).
Proof.
  cbv zeta. split; [reflexivity|]. split; [reflexivity|].
  split; [vm_compute; reflexivity|]. split; [vm_compute; reflexivity|].
  cbn. lia.
Qed.

(** ** Eviction and reuse *)
Section Eviction.

Context `{Libs}.

(** C5. Once a call with caching enabled has returned a URL for an
    identifier, a later call for it made while [now + delay] has not passed
    the expiry of the cached entry returns that URL, calls nothing outside,
    and leaves the entry as it is. *)
Theorem cached_url_reused (conf : Conf) (now1 : Z) (path1 : string)
    (seconds1 : Z) (key1 method1 endpoint1 image_id : string)
    (st st1 : state) (u : string)
    (Hen : swift_temp_url_cache_enabled conf = true)
    (Hfirst : _generate_temp_url conf now1 path1 seconds1 key1 method1
                endpoint1 image_id st = (inr u, st1)) :
  exists e,
    _cache st1 !! image_id = Some e /\ url e = u
    /\ forall (now2 : Z) (path2 : string) (seconds2 : Z)
              (key2 method2 endpoint2 : string),
         now2 <= url_expires_at e
                 - swift_temp_url_expected_download_start_delay conf ->
         let r :=
           _generate_temp_url conf now2 path2 seconds2 key2 method2 endpoint2
             image_id st1 in
         fst r = inr u
         /\ calls (snd r) = calls st1
         /\ sign_calls (snd r) = sign_calls st1
         /\ _cache (snd r) !! image_id = Some e.
Proof.
  assert (Hentry : exists e, _cache st1 !! image_id = Some e /\ url e = u).
  { rewrite generate_temp_url_enabled in Hfirst by assumption.
    destruct (pruned conf now1 (_cache st) !! image_id) as [e|] eqn:Hid.
    - injection Hfirst as <- <-. exists e. split; [exact Hid | reflexivity].
    - rewrite sign_and_store_run, Hen in Hfirst. cbv zeta in Hfirst.
      destruct (expiry_of _) as [x|exp]; [discriminate|].
      injection Hfirst as <- <-. eexists. cbn [_cache].
      split; [apply lookup_insert_eq | reflexivity]. }
  destruct Hentry as (e & He & Hu). exists e.
  split; [exact He|]. split; [exact Hu|].
  intros now2 path2 seconds2 key2 method2 endpoint2 Hnow r.
  assert (now2 + swift_temp_url_expected_download_start_delay conf
          <= url_expires_at e) as Hle by lia.
  unfold r.
  rewrite (generate_temp_url_hit conf now2 path2 seconds2 key2 method2
             endpoint2 image_id st1 e Hen He Hle).
  cbn [fst snd set_cache _cache calls].
  split; [now rewrite Hu|]. split; [reflexivity|]. split; [reflexivity|].
  now apply pruned_lookup_live.
Qed.

End Eviction.

Lemma cached_url_reused_witness :
  exists e,
    _cache (snd (_generate_temp_url Sample.conf 95 "/v1/a/c/o" 1200 "k" "GET"
                   "https://h" Sample.image_id Sample.empty_state))
      !! Sample.image_id = Some e
    /\ url e = "https://h/v1/a/c/o?temp_url_sig=GETk&temp_url_expires=1295".
Proof.
  destruct (cached_url_reused Sample.conf 95 "/v1/a/c/o" 1200 "k" "GET"
              "https://h" Sample.image_id Sample.empty_state
              (snd (_generate_temp_url Sample.conf 95 "/v1/a/c/o" 1200 "k"
                      "GET" "https://h" Sample.image_id Sample.empty_state))
              "https://h/v1/a/c/o?temp_url_sig=GETk&temp_url_expires=1295")
    as (e & He & Hu & _); [reflexivity | vm_compute; reflexivity |].
  exists e. split; assumption.
Defined.

(** ** [swift_temp_url]: validation, resolution and errors *)
Section Issuance.

Context `{Libs}.

Lemma logged_nil (st : state) : logged [] st = st.
Proof. destruct st as [c l]. unfold logged. cbn. now rewrite List.app_nil_r. Qed.

Lemma logged_logged (es1 es2 : list event) (st : state) :
  logged es2 (logged es1 st) = logged (es1 ++ es2) st.
Proof. unfold logged. cbn. now rewrite List.app_assoc. Qed.

Lemma sign_calls_logged (es : list event) (st : state) :
  sign_calls (logged es st)
  = (sign_calls st + length (List.filter is_sign es))%nat.
Proof.
  unfold sign_calls, logged. cbn [calls].
  now rewrite List.filter_app, List.length_app.
Qed.

Lemma validate_cases (conf : Conf) (st : state) :
  (_validate_temp_url_config conf st = (inr tt, st) /\ config_valid conf)
  \/ (_validate_temp_url_config conf st = (inl InvalidParameterValue, st)
      /\ ~ config_valid conf).
Proof.
  unfold _validate_temp_url_config, config_valid.
  destruct (Z.ltb_spec (swift_temp_url_duration conf)
              (swift_temp_url_expected_download_start_delay conf)) as [Hlt|Hle].
  - right. split; [reflexivity|]. intros [Hle _]. lia.
  - destruct (swift_store_multiple_containers_seed conf) as [n|].
    + destruct (Z.ltb_spec n 0) as [Hneg|Hnn]; cbn [orb].
      * right. split; [reflexivity|].
        intros (_ & m & Hm & Hr). injection Hm as <-. lia.
      * destruct (Z.ltb_spec 32 n) as [Hbig|Hsm].
        -- right. split; [reflexivity|].
           intros (_ & m & Hm & Hr). injection Hm as <-. lia.
        -- left. split; [reflexivity|]. split; [assumption|].
           exists n. split; [reflexivity | lia].
    + right. split; [reflexivity|]. intros (_ & m & Hm & _). discriminate.
Qed.

Lemma resolve_endpoint_run (conf : Conf) (be : Backend) (st : state) :
  resolve_endpoint conf be st
  = (inr (resolved_endpoint conf be), logged (endpoint_lookups conf) st).
Proof.
  unfold resolve_endpoint, resolved_endpoint, endpoint_lookups.
  destruct (PyStr.truthy (swift_endpoint_url conf)); cbn [negb].
  - unfold ret. now rewrite logged_nil.
  - reflexivity.
Qed.

Lemma resolve_account_run (conf : Conf) (be : Backend) (st : state) :
  resolve_account conf be st
  = (inr (resolved_account conf be), logged (account_lookups conf) st).
Proof.
  unfold resolve_account, resolved_account, account_lookups.
  destruct (swift_account conf) as [[|a r]|]; cbn [PyStr.truthy];
    try reflexivity.
  unfold ret. now rewrite logged_nil.
Qed.

Lemma resolve_key_run (conf : Conf) (be : Backend) (st : state) :
  resolve_key conf be st
  = (inr (resolved_key conf be), logged (key_lookups conf) st).
Proof.
  unfold resolve_key, resolved_key, key_lookups.
  destruct (PyStr.truthy (swift_temp_url_key conf)); cbn [negb].
  - unfold ret. now rewrite logged_nil.
  - reflexivity.
Qed.

(** [swift_temp_url] under a valid configuration, branch by branch. *)
Lemma swift_temp_url_run (conf : Conf) (be : Backend) (now : Z)
    (image_info : gmap string string) (st : state) (n : Z) :
  swift_temp_url_expected_download_start_delay conf
  <= swift_temp_url_duration conf ->
  swift_store_multiple_containers_seed conf = Some n ->
  0 <= n <= 32 ->
  swift_temp_url conf be now image_info st
  = match image_info !! "id" with
    | None => (inl ImageUnacceptable, st)
    | Some image_id =>
        if is_uuid_like image_id then
          match resolved_endpoint conf be with
          | Some (String c e) =>
              match resolved_key conf be with
              | Some (String k ks) =>
                  _generate_temp_url conf now (object_path conf be n image_id)
                    (swift_temp_url_duration conf) (String k ks) "GET"
                    (Re.sub_auth (String c e)) image_id
                    (logged (endpoint_lookups conf ++ account_lookups conf
                             ++ key_lookups conf) st)
              | _ =>
                  (inl MissingParameterValue,
                   logged (endpoint_lookups conf ++ account_lookups conf
                           ++ key_lookups conf) st)
              end
          | _ => (inl MissingParameterValue, logged (endpoint_lookups conf) st)
          end
        else (inl ImageUnacceptable, st)
    end.
Proof.
  intros Hdur Hseed Hn. unfold swift_temp_url. unfold bind at 1.
  destruct (validate_cases conf st) as [[-> _]|[_ Hbad]].
  2:{ exfalso. apply Hbad. split; [assumption|]. now exists n. }
  destruct (image_info !! "id") as [image_id|]; [|reflexivity].
  destruct (is_uuid_like image_id); cbn [negb]; [|reflexivity].
  unfold _get_swift_container. rewrite Hseed.
  unfold bind at 1. unfold lift.
  unfold bind at 1. rewrite resolve_endpoint_run.
  destruct (resolved_endpoint conf be) as [[|c e]|]; try reflexivity.
  unfold bind at 1. rewrite resolve_account_run.
  unfold bind at 1. rewrite resolve_key_run.
  rewrite !logged_logged.
  destruct (resolved_key conf be) as [[|k ks]|]; reflexivity.
Qed.

(** Only the reading of the expiry can fail in [_generate_temp_url]. *)
Lemma generate_temp_url_errors (conf : Conf) (now : Z) (path : string)
    (seconds : Z) (key method endpoint image_id : string) (st : state)
    (x : exn) :
  fst (_generate_temp_url conf now path seconds key method endpoint image_id st)
  = inl x ->
  x = KeyError \/ x = ValueError.
Proof.
  destruct (swift_temp_url_cache_enabled conf) eqn:Hen.
  - rewrite generate_temp_url_enabled by assumption.
    destruct (pruned conf now (_cache st) !! image_id); [discriminate|].
    rewrite sign_and_store_run, Hen. cbv zeta.
    unfold expiry_of.
    destruct (query_temp_url_expires _) as [s|]; cbn.
    + destruct (py_int s); cbn; [discriminate|].
      intros [= <-]. now right.
    + intros [= <-]. now left.
  - rewrite generate_temp_url_disabled by assumption. discriminate.
Qed.

Lemma swift_temp_url_invalid (conf : Conf) (be : Backend) (now : Z)
    (image_info : gmap string string) (st : state) :
  ~ config_valid conf ->
  swift_temp_url conf be now image_info st = (inl InvalidParameterValue, st).
Proof.
  intros Hbad. unfold swift_temp_url. unfold bind at 1.
  destruct (validate_cases conf st) as [[_ Hok]|[-> _]];
    [contradiction | reflexivity].
Qed.

(** C6. [swift_temp_url] raises [InvalidParameterValue], with nothing called
    and the state untouched, when the duration is shorter than the start
    delay and when the seed is missing or outside [0, 32], -1 and 33
    included, whatever the other inputs; under a valid configuration it
    does not raise it. *)
Theorem invalid_config_rejected (conf : Conf) (be : Backend) (now : Z)
    (image_info : gmap string string) (st : state) :
  let r := swift_temp_url conf be now image_info st in
  (swift_temp_url_duration conf
   < swift_temp_url_expected_download_start_delay conf ->
   r = (inl InvalidParameterValue, st))
  /\ (forall n, swift_store_multiple_containers_seed conf = Some n ->
                n < 0 \/ 32 < n -> r = (inl InvalidParameterValue, st))
  /\ (swift_store_multiple_containers_seed conf = Some (-1) ->
      r = (inl InvalidParameterValue, st))
  /\ (swift_store_multiple_containers_seed conf = Some 33 ->
      r = (inl InvalidParameterValue, st))
  /\ (swift_store_multiple_containers_seed conf = None ->
      r = (inl InvalidParameterValue, st))
  /\ (swift_temp_url_expected_download_start_delay conf
      <= swift_temp_url_duration conf ->
      (exists n, swift_store_multiple_containers_seed conf = Some n
                 /\ 0 <= n <= 32) ->
      fst r <> inl InvalidParameterValue).
Proof.
  intros r.
  assert (Hseed : forall n, swift_store_multiple_containers_seed conf = Some n ->
                            n < 0 \/ 32 < n ->
                            r = (inl InvalidParameterValue, st)).
  { intros n Hs Hout. apply swift_temp_url_invalid.
    intros (_ & m & Hm & Hr). rewrite Hs in Hm. injection Hm as <-. lia. }
  split; [|split; [|split; [|split; [|split]]]].
  - intros Hlt. apply swift_temp_url_invalid. intros [Hle _]. lia.
  - exact Hseed.
  - intros Hs. apply (Hseed _ Hs). lia.
  - intros Hs. apply (Hseed _ Hs). lia.
  - intros Hs. apply swift_temp_url_invalid.
    intros (_ & m & Hm & _). rewrite Hs in Hm. discriminate.
  - intros Hdur (n & Hs & Hn). unfold r.
    rewrite (swift_temp_url_run conf be now image_info st n Hdur Hs Hn).
    destruct (image_info !! "id") as [image_id|]; [|discriminate].
    destruct (is_uuid_like image_id); [|discriminate].
    destruct (resolved_endpoint conf be) as [[|c e]|]; try discriminate.
    destruct (resolved_key conf be) as [[|k ks]|]; try discriminate.
    intros Herr. apply generate_temp_url_errors in Herr as [?|?]; discriminate.
Qed.

(** Where a new entry of the cache comes from in [_generate_temp_url]. *)
Lemma generate_temp_url_entries (conf : Conf) (now : Z) (path : string)
    (seconds : Z) (key method endpoint image_id : string) (st : state)
    (k : string) (v : TempUrlCacheElement) :
  let r :=
    _generate_temp_url conf now path seconds key method endpoint image_id st in
  _cache (snd r) !! k = Some v ->
  _cache st !! k = Some v
  \/ (k = image_id /\ fst r = inr (url v)
      /\ sign_calls (snd r) = S (sign_calls st)).
Proof.
  intros r. unfold r. destruct (swift_temp_url_cache_enabled conf) eqn:Hen.
  - rewrite generate_temp_url_enabled by assumption.
    destruct (pruned conf now (_cache st) !! image_id) as [e|] eqn:Hid.
    + cbn. intros Hk. left. now apply pruned_lookup_Some in Hk.
    + rewrite sign_and_store_run, Hen. cbv zeta.
      destruct (expiry_of _) as [x|exp]; cbn [fst snd _cache set_cache].
      * intros Hk. left. now apply pruned_lookup_Some in Hk.
      * destruct (decide (k = image_id)) as [->|Hne].
        -- rewrite lookup_insert_eq. intros [= <-]. right.
           split; [reflexivity|]. split; [reflexivity|].
           apply (sign_calls_snoc (set_cache _ st)).
        -- rewrite lookup_insert_ne by congruence.
           intros Hk. left. now apply pruned_lookup_Some in Hk.
  - rewrite generate_temp_url_disabled by assumption. cbn. now left.
Qed.

Lemma no_sign_in_lookups (conf : Conf) :
  List.filter is_sign
    (endpoint_lookups conf ++ account_lookups conf ++ key_lookups conf) = []
  /\ List.filter is_sign (endpoint_lookups conf) = [].
Proof.
  unfold endpoint_lookups, account_lookups, key_lookups.
  destruct (PyStr.truthy (swift_endpoint_url conf)),
    (PyStr.truthy (swift_account conf)),
    (PyStr.truthy (swift_temp_url_key conf)); split; reflexivity.
Qed.

(** C8. When [swift_temp_url] fails with [InvalidParameterValue],
    [ImageUnacceptable] or [MissingParameterValue], the cache is what it
    was and the signing primitive was not called; and after any call, an
    entry of the cache was either there before or belongs to the image of
    this call, holds the URL the call returned, and was signed in it. *)
Theorem errors_leave_cache (conf : Conf) (be : Backend) (now : Z)
    (image_info : gmap string string) (st : state) :
  let r := swift_temp_url conf be now image_info st in
  (forall x, fst r = inl x ->
             x = InvalidParameterValue \/ x = ImageUnacceptable
             \/ x = MissingParameterValue ->
             _cache (snd r) = _cache st
             /\ sign_calls (snd r) = sign_calls st
             /\ exists es, calls (snd r) = (calls st ++ es)%list
                           /\ List.filter is_sign es = [])
  /\ (forall k v, _cache (snd r) !! k = Some v ->
                  _cache st !! k = Some v
                  \/ (image_info !! "id" = Some k /\ fst r = inr (url v)
                      /\ sign_calls (snd r) = S (sign_calls st))).
Proof.
  intros r.
  assert (Hsame : forall es, List.filter is_sign es = [] ->
            _cache (logged es st) = _cache st
            /\ sign_calls (logged es st) = sign_calls st
            /\ exists es', calls (logged es st) = (calls st ++ es')%list
                           /\ List.filter is_sign es' = []).
  { intros es Hes. split; [reflexivity|]. split.
    - rewrite sign_calls_logged, Hes. cbn. lia.
    - exists es. split; [reflexivity | assumption]. }
  assert (Hst : _cache st = _cache st /\ sign_calls st = sign_calls st
                /\ exists es, calls st = (calls st ++ es)%list
                              /\ List.filter is_sign es = []).
  { split; [reflexivity|]. split; [reflexivity|].
    exists []. split; [now rewrite List.app_nil_r | reflexivity]. }
  destruct (no_sign_in_lookups conf) as [Hall Hep].
  destruct (validate_cases conf st) as [[_ Hok]|[_ Hbad]].
  2:{ unfold r. rewrite swift_temp_url_invalid by assumption. cbn.
      split; [intros; exact Hst | intros k v Hk; now left]. }
  destruct Hok as (Hdur & n & Hs & Hn). unfold r.
  rewrite (swift_temp_url_run conf be now image_info st n Hdur Hs Hn).
  destruct (image_info !! "id") as [image_id|];
    [|cbn; split; [intros; exact Hst | intros k v Hk; now left]].
  destruct (is_uuid_like image_id);
    [|cbn; split; [intros; exact Hst | intros k v Hk; now left]].
  destruct (resolved_endpoint conf be) as [[|c e]|];
    try (cbn [fst snd]; split;
         [intros; exact (Hsame _ Hep) | intros k v Hk; now left]).
  destruct (resolved_key conf be) as [[|k0 ks]|];
    try (cbn [fst snd]; split;
         [intros; exact (Hsame _ Hall) | intros k v Hk; now left]).
  split.
  - intros x Herr Hx. apply generate_temp_url_errors in Herr.
    destruct Herr as [Hx'|Hx'], Hx as [?|[?|?]]; subst; discriminate.
  - intros k v Hk. apply generate_temp_url_entries in Hk.
    destruct Hk as [Hk|(-> & Hf & Hsg)].
    + now left.
    + right. split; [reflexivity|]. split; [exact Hf|].
      rewrite Hsg, sign_calls_logged, Hall. cbn. lia.
Qed.

(** C9. Under a valid configuration [swift_temp_url] raises
    [ImageUnacceptable] exactly when the image info has no ['id'] or its
    ['id'] is not UUID-like, and then nothing was called and the state is
    untouched. *)
Theorem image_unacceptable_iff (conf : Conf) (be : Backend) (now : Z)
    (image_info : gmap string string) (st : state) (n : Z)
    (Hdur : swift_temp_url_expected_download_start_delay conf
            <= swift_temp_url_duration conf)
    (Hseed : swift_store_multiple_containers_seed conf = Some n)
    (Hn : 0 <= n <= 32) :
  let r := swift_temp_url conf be now image_info st in
  (fst r = inl ImageUnacceptable
   <-> image_info !! "id" = None
       \/ exists image_id, image_info !! "id" = Some image_id
                           /\ is_uuid_like image_id = false)
  /\ (fst r = inl ImageUnacceptable -> snd r = st).
Proof.
  intros r. unfold r.
  rewrite (swift_temp_url_run conf be now image_info st n Hdur Hseed Hn).
  destruct (image_info !! "id") as [image_id|].
  2:{ cbn. split; [|reflexivity]. split; [now left | reflexivity]. }
  destruct (is_uuid_like image_id) eqn:Hu.
  2:{ cbn. split; [|reflexivity]. split; [|reflexivity].
      intros _. right. now exists image_id. }
  assert (Hvalid : ~ (Some image_id = @None string
                      \/ exists i, Some image_id = Some i
                                   /\ is_uuid_like i = false)).
  { intros [?|(i & Hi & Hf)]; [discriminate|].
    injection Hi as <-. congruence. }
  assert (Hgen : forall res : (exn + string) * state,
            fst res <> inl ImageUnacceptable ->
            (fst res = inl ImageUnacceptable
             <-> Some image_id = @None string
                 \/ exists i, Some image_id = Some i
                              /\ is_uuid_like i = false)
            /\ (fst res = inl ImageUnacceptable -> snd res = st)).
  { intros res Hres. split; [split|]; intros Hc; [contradiction| |contradiction].
    destruct (Hvalid Hc). }
  apply Hgen.
  destruct (resolved_endpoint conf be) as [[|c e]|]; try discriminate.
  destruct (resolved_key conf be) as [[|k ks]|]; try discriminate.
  intros Herr. apply generate_temp_url_errors in Herr as [?|?]; discriminate.
Qed.

(** With caching enabled, an entry found after [_generate_temp_url] that
    expires before [now + delay] is the one the call has just signed. *)
Lemma generate_temp_url_stale_is_fresh (conf : Conf) (now : Z) (path : string)
    (seconds : Z) (key method endpoint image_id : string) (st : state)
    (k : string) (v : TempUrlCacheElement) :
  let r :=
    _generate_temp_url conf now path seconds key method endpoint image_id st in
  let u := signed_url now path seconds key method endpoint in
  swift_temp_url_cache_enabled conf = true ->
  _cache (snd r) !! k = Some v ->
  url_expires_at v < now + swift_temp_url_expected_download_start_delay conf ->
  k = image_id /\ pruned conf now (_cache st) !! image_id = None
  /\ v = {| url := u; url_expires_at := url_expires_at v |}
  /\ expiry_of u = inr (url_expires_at v)
  /\ fst r = inr u.
Proof.
  intros r u Hen. unfold r.
  rewrite generate_temp_url_enabled by assumption.
  destruct (pruned conf now (_cache st) !! image_id) as [e|] eqn:Hid.
  - cbn. intros Hk Hlt. apply pruned_lookup_Some in Hk. lia.
  - rewrite sign_and_store_run, Hen. cbv zeta. fold u.
    destruct (expiry_of u) as [x|exp]; cbn [fst snd _cache set_cache].
    + intros Hk Hlt. apply pruned_lookup_Some in Hk. lia.
    + destruct (decide (k = image_id)) as [->|Hne].
      * rewrite lookup_insert_eq. intros [= <-] _. repeat split; reflexivity.
      * rewrite lookup_insert_ne by congruence.
        intros Hk Hlt. apply pruned_lookup_Some in Hk. lia.
Qed.

(** C4, as the code has it. A call of [_generate_temp_url] with caching
    enabled first removes every entry that expires before [now + delay]
    and only then looks the identifier up; afterwards an entry that
    expires before [now + delay] can only be the one this very call has
    signed and stored, and there is none when the expiry the signing
    primitive reports is [now + delay] or later.  The same holds after a
    call of [swift_temp_url] that was not turned down with one of its
    three errors, which is the only way it gets as far as the cache. *)
Theorem expired_entries_removed (conf : Conf) (now : Z) (path : string)
    (seconds : Z) (key method endpoint image_id : string) (st : state)
    (Hen : swift_temp_url_cache_enabled conf = true) :
  let r :=
    _generate_temp_url conf now path seconds key method endpoint image_id st in
  let delay := swift_temp_url_expected_download_start_delay conf in
  let u := signed_url now path seconds key method endpoint in
  let kept := pruned conf now (_cache st) in
  (forall k v, _cache st !! k = Some v -> url_expires_at v < now + delay ->
               kept !! k = None)
  /\ (forall k v, kept !! k = Some v ->
                  _cache st !! k = Some v /\ now + delay <= url_expires_at v)
  /\ r = match kept !! image_id with
         | Some e => (inr (url e), set_cache kept st)
         | None =>
             sign_and_store conf now path seconds key method endpoint image_id
               (set_cache kept st)
         end
  /\ (forall k v, _cache (snd r) !! k = Some v ->
                  url_expires_at v < now + delay ->
                  k = image_id /\ kept !! image_id = None
                  /\ v = {| url := u; url_expires_at := url_expires_at v |}
                  /\ expiry_of u = inr (url_expires_at v)
                  /\ fst r = inr u)
  /\ ((forall exp, expiry_of u = inr exp -> now + delay <= exp) ->
      forall k v, _cache (snd r) !! k = Some v ->
                  now + delay <= url_expires_at v)
  /\ (forall (be : Backend) (image_info : gmap string string) (st0 : state),
        let r0 := swift_temp_url conf be now image_info st0 in
        fst r0 <> inl InvalidParameterValue ->
        fst r0 <> inl ImageUnacceptable ->
        fst r0 <> inl MissingParameterValue ->
        (forall path0 key0 endpoint0 exp,
            expiry_of (signed_url now path0 (swift_temp_url_duration conf)
                         key0 "GET" endpoint0) = inr exp ->
            now + swift_temp_url_duration conf <= exp) ->
        forall k v, _cache (snd r0) !! k = Some v ->
                    now + delay <= url_expires_at v)
  /\ (forall (be : Backend) (image_info : gmap string string) (st0 : state),
        let r0 := swift_temp_url conf be now image_info st0 in
        fst r0 <> inl InvalidParameterValue ->
        fst r0 <> inl ImageUnacceptable ->
        fst r0 <> inl MissingParameterValue ->
        forall k v, _cache (snd r0) !! k = Some v ->
                    url_expires_at v < now + delay ->
                    image_info !! "id" = Some k
                    /\ pruned conf now (_cache st0) !! k = None
                    /\ fst r0 = inr (url v)
                    /\ expiry_of (url v) = inr (url_expires_at v)).
Proof.
  intros r delay u kept.
  assert (Hkept : forall k v, kept !! k = Some v ->
            _cache st !! k = Some v /\ now + delay <= url_expires_at v).
  { intros k v Hk. now apply pruned_lookup_Some in Hk. }
  assert (Hr : r = match kept !! image_id with
                   | Some e => (inr (url e), set_cache kept st)
                   | None =>
                       sign_and_store conf now path seconds key method endpoint
                         image_id (set_cache kept st)
                   end).
  { unfold r. now rewrite generate_temp_url_enabled. }
  assert (Hpost : forall k v, _cache (snd r) !! k = Some v ->
            url_expires_at v < now + delay ->
            k = image_id /\ kept !! image_id = None
            /\ v = {| url := u; url_expires_at := url_expires_at v |}
            /\ expiry_of u = inr (url_expires_at v)
            /\ fst r = inr u).
  { intros k v Hk Hlt.
    exact (generate_temp_url_stale_is_fresh conf now path seconds key method
             endpoint image_id st k v Hen Hk Hlt). }
  split; [|split; [|split; [|split; [|split; [|split]]]]].
  - intros k v Hk Hlt. exact (pruned_lookup_stale conf now _ _ v Hk Hlt).
  - exact Hkept.
  - exact Hr.
  - exact Hpost.
  - intros Hsig k v Hk.
    destruct (Z.le_gt_cases (now + delay) (url_expires_at v)) as [Hle|Hgt];
      [assumption|].
    destruct (Hpost k v Hk ltac:(lia)) as (_ & _ & _ & Hexp & _).
    apply Hsig in Hexp. lia.
  - intros be image_info st0 r0 Hipv Hiu Hmpv Hsig k v.
    destruct (validate_cases conf st0) as [[_ Hok]|[_ Hbad]].
    2:{ exfalso. apply Hipv. unfold r0.
        now rewrite swift_temp_url_invalid by assumption. }
    destruct Hok as (Hdur & n & Hs & Hn). revert Hipv Hiu Hmpv. unfold r0.
    rewrite (swift_temp_url_run conf be now image_info st0 n Hdur Hs Hn).
    clear r0.
    destruct (image_info !! "id") as [id0|]; [|intros _ Hiu; now destruct Hiu].
    destruct (is_uuid_like id0); [|intros _ Hiu; now destruct Hiu].
    destruct (resolved_endpoint conf be) as [[|c e]|];
      try (intros _ _ Hmpv; now destruct Hmpv).
    destruct (resolved_key conf be) as [[|k0 ks]|];
      try (intros _ _ Hmpv; now destruct Hmpv).
    intros _ _ _ Hk.
    destruct (Z.le_gt_cases (now + delay) (url_expires_at v)) as [Hle|Hgt];
      [assumption|].
    exfalso.
    destruct (generate_temp_url_stale_is_fresh conf now _ _ _ _ _ _ _ k v
                Hen Hk ltac:(unfold delay in Hgt; lia))
      as (_ & _ & _ & Hexp & _).
    apply Hsig in Hexp. unfold delay in Hgt, Hdur. lia.
  - intros be image_info st0 r0 Hipv Hiu Hmpv k v.
    destruct (validate_cases conf st0) as [[_ Hok]|[_ Hbad]].
    2:{ exfalso. apply Hipv. unfold r0.
        now rewrite swift_temp_url_invalid by assumption. }
    destruct Hok as (Hdur & n & Hs & Hn). revert Hipv Hiu Hmpv. unfold r0.
    rewrite (swift_temp_url_run conf be now image_info st0 n Hdur Hs Hn).
    clear r0.
    destruct (image_info !! "id") as [id0|]; [|intros _ Hiu; now destruct Hiu].
    destruct (is_uuid_like id0); [|intros _ Hiu; now destruct Hiu].
    destruct (resolved_endpoint conf be) as [[|c e]|];
      try (intros _ _ Hmpv; now destruct Hmpv).
    destruct (resolved_key conf be) as [[|k0 ks]|];
      try (intros _ _ Hmpv; now destruct Hmpv).
    intros _ _ _ Hk Hlt.
    destruct (generate_temp_url_stale_is_fresh conf now _ _ _ _ _ _ _ k v
                Hen Hk Hlt) as (-> & Hp & Hv & Hexp & Hf).
    assert (Hurl : url v = signed_url now (object_path conf be n id0)
                             (swift_temp_url_duration conf) (String k0 ks)
                             "GET" (Re.sub_auth (String c e)))
      by now rewrite Hv.
    split; [reflexivity|]. split; [exact Hp|].
    rewrite Hurl. split; [exact Hf | exact Hexp].
Qed.


(** X21. With no endpoint or no key to be had, no call returns a URL,
    whatever the rest of the input. *)
Lemma missing_credentials_fatal (conf : Conf) (be : Backend) (now : Z)
    (image_info : gmap string string) (st : state) :
  PyStr.truthy (resolved_endpoint conf be) = false
  \/ PyStr.truthy (resolved_key conf be) = false ->
  exists x, fst (swift_temp_url conf be now image_info st) = inl x.
Proof.
  intros Hmiss.
  destruct (validate_cases conf st) as [[_ Hok]|[_ Hbad]].
  2:{ rewrite swift_temp_url_invalid by assumption. now eexists. }
  destruct Hok as (Hdur & n & Hs & Hn).
  rewrite (swift_temp_url_run conf be now image_info st n Hdur Hs Hn).
  destruct (image_info !! "id") as [image_id|]; [|now eexists].
  destruct (is_uuid_like image_id); [|now eexists].
  destruct (resolved_endpoint conf be) as [[|c e]|]; try (now eexists).
  destruct (resolved_key conf be) as [[|k ks]|]; try (now eexists).
  destruct Hmiss; discriminate.
Qed.

(** C7. For a request that passes validation and carries a UUID-like id:
    with no endpoint configured and none in the catalog,
    [MissingParameterValue] is raised after the one catalog lookup,
    whatever the key; with an endpoint resolved but no key configured and
    none in the account metadata, [MissingParameterValue] is raised after
    the one metadata lookup.  Neither touches the cache or signs. *)
Theorem missing_credentials_independent (conf : Conf) (be : Backend) (now : Z)
    (image_info : gmap string string) (st : state) (n : Z) (image_id : string)
    (Hdur : swift_temp_url_expected_download_start_delay conf
            <= swift_temp_url_duration conf)
    (Hseed : swift_store_multiple_containers_seed conf = Some n)
    (Hn : 0 <= n <= 32)
    (Hid : image_info !! "id" = Some image_id)
    (Huuid : is_uuid_like image_id = true) :
  let r := swift_temp_url conf be now image_info st in
  (PyStr.truthy (swift_endpoint_url conf) = false ->
   PyStr.truthy (catalog_endpoint be) = false ->
   r = (inl MissingParameterValue, logged [GetEndpoint] st))
  /\ (PyStr.truthy (resolved_endpoint conf be) = true ->
      PyStr.truthy (swift_temp_url_key conf) = false ->
      PyStr.truthy (account_temp_url_key be) = false ->
      r = (inl MissingParameterValue,
           logged (endpoint_lookups conf ++ account_lookups conf
                   ++ [HeadAccount]) st))
  /\ (PyStr.truthy (resolved_endpoint conf be) = false
      \/ PyStr.truthy (resolved_key conf be) = false ->
      fst r = inl MissingParameterValue
      /\ _cache (snd r) = _cache st
      /\ sign_calls (snd r) = sign_calls st).
Proof.
  intros r.
  assert (Hr : r = match resolved_endpoint conf be with
                   | Some (String c e) =>
                       match resolved_key conf be with
                       | Some (String k ks) =>
                           _generate_temp_url conf now
                             (object_path conf be n image_id)
                             (swift_temp_url_duration conf) (String k ks) "GET"
                             (Re.sub_auth (String c e)) image_id
                             (logged (endpoint_lookups conf
                                      ++ account_lookups conf
                                      ++ key_lookups conf) st)
                       | _ =>
                           (inl MissingParameterValue,
                            logged (endpoint_lookups conf
                                    ++ account_lookups conf
                                    ++ key_lookups conf) st)
                       end
                   | _ => (inl MissingParameterValue,
                           logged (endpoint_lookups conf) st)
                   end).
  { unfold r.
    rewrite (swift_temp_url_run conf be now image_info st n Hdur Hseed Hn).
    now rewrite Hid, Huuid. }
  destruct (no_sign_in_lookups conf) as [Hall Hep].
  split; [|split].
  - intros Hc Hb. rewrite Hr. unfold resolved_endpoint, endpoint_lookups.
    rewrite Hc. destruct (catalog_endpoint be) as [[|c e]|];
      try reflexivity; discriminate.
  - intros He Hc Hb. rewrite Hr. unfold resolved_key, key_lookups.
    rewrite Hc.
    destruct (resolved_endpoint conf be) as [[|c e]|]; try discriminate.
    destruct (account_temp_url_key be) as [[|k ks]|];
      try reflexivity; discriminate.
  - intros Hmiss. rewrite Hr.
    destruct (resolved_endpoint conf be) as [[|c e]|].
    1,3: cbn [fst snd]; split; [reflexivity|]; split; [reflexivity|];
         rewrite sign_calls_logged, Hep; cbn; lia.
    destruct (resolved_key conf be) as [[|k ks]|].
    1,3: cbn [fst snd]; split; [reflexivity|]; split; [reflexivity|];
         rewrite sign_calls_logged, Hall; cbn; lia.
    destruct Hmiss; discriminate.
Qed.

End Issuance.

(** C4 as stated fails for a call that is turned down before it gets to
    the cache: with caching enabled, an entry that expires before
    [now + delay] is still there after a call that raised
    [MissingParameterValue], and after one that raised
    [InvalidParameterValue]. *)
Lemma stale_entry_survives_counterexample :
  let st := Sample.cached 100 in
  let stale := {| url := "https://swift.example/u"; url_expires_at := 100 |} in
  let r1 :=
    swift_temp_url Sample.without_key Sample.backend 1000 Sample.image_info
      st in
  let r2 :=
    swift_temp_url Sample.short_lived Sample.backend 1000 Sample.image_info
      st in
  swift_temp_url_cache_enabled Sample.without_key = true
  /\ fst r1 = inl MissingParameterValue
  /\ _cache (snd r1) !! Sample.image_id = Some stale
  /\ url_expires_at stale
     < 1000 + swift_temp_url_expected_download_start_delay Sample.without_key
  /\ swift_temp_url_cache_enabled Sample.short_lived = true
  /\ fst r2 = inl InvalidParameterValue
  /\ _cache (snd r2) !! Sample.image_id = Some stale
  /\ url_expires_at stale
     < 1000 + swift_temp_url_expected_download_start_delay Sample.short_lived.
Proof.
  cbv zeta.
  split; [reflexivity|]. split; [vm_compute; reflexivity|].
  split; [vm_compute; reflexivity|]. split; [cbn; lia|].
  split; [reflexivity|]. split; [vm_compute; reflexivity|].
  split; [vm_compute; reflexivity|]. cbn; lia.
Qed.

Lemma expired_entries_removed_witness :
  pruned Sample.conf 95 (_cache (Sample.cached 100)) !! Sample.image_id = None
  /\ _cache (snd (_generate_temp_url Sample.conf 95 "/v1/a/c/o" 1200 "k" "GET"
                    "https://h" Sample.image_id (Sample.cached 100)))
       !! Sample.image_id
     = Some {| url := "https://h/v1/a/c/o?temp_url_sig=GETk&temp_url_expires=1295";
               url_expires_at := 1295 |}.
Proof.
  destruct (expired_entries_removed Sample.conf 95 "/v1/a/c/o" 1200 "k" "GET"
              "https://h" Sample.image_id (Sample.cached 100))
    as (Hgone & _ & Hr & _); [reflexivity|].
  split.
  - apply (Hgone Sample.image_id
             {| url := "https://swift.example/u"; url_expires_at := 100 |});
      [reflexivity | cbn; lia].
  - rewrite Hr. vm_compute. reflexivity.
Defined.

Lemma invalid_config_rejected_witness :
  swift_temp_url Sample.short_lived Sample.backend 1000 Sample.image_info
    (Sample.cached 100)
  = (inl InvalidParameterValue, Sample.cached 100).
Proof.
  destruct (invalid_config_rejected Sample.short_lived Sample.backend 1000
              Sample.image_info (Sample.cached 100)) as (Hshort & _).
  apply Hshort. cbn. lia.
Defined.

Lemma missing_credentials_independent_witness :
  swift_temp_url Sample.without_endpoint Sample.backend 1000 Sample.image_info
    Sample.empty_state
  = (inl MissingParameterValue, logged [GetEndpoint] Sample.empty_state)
  /\ swift_temp_url Sample.without_key Sample.backend 1000 Sample.image_info
       Sample.empty_state
     = (inl MissingParameterValue, logged [HeadAccount] Sample.empty_state).
Proof.
  split.
  - destruct (missing_credentials_independent Sample.without_endpoint
                Sample.backend 1000 Sample.image_info Sample.empty_state 0
                Sample.image_id) as (Hep & _);
      [cbn; lia | reflexivity | lia | reflexivity | reflexivity |].
    apply Hep; reflexivity.
  - destruct (missing_credentials_independent Sample.without_key
                Sample.backend 1000 Sample.image_info Sample.empty_state 0
                Sample.image_id) as (_ & Hkey & _);
      [cbn; lia | reflexivity | lia | reflexivity | reflexivity |].
    apply Hkey; reflexivity.
Defined.

Lemma errors_leave_cache_witness :
  _cache (snd (swift_temp_url Sample.without_key Sample.backend 1000
                 Sample.image_info (Sample.cached 100)))
  = _cache (Sample.cached 100).
Proof.
  destruct (errors_leave_cache Sample.without_key Sample.backend 1000
              Sample.image_info (Sample.cached 100)) as (Herr & _).
  destruct (Herr MissingParameterValue) as (Hc & _);
    [reflexivity | right; right; reflexivity | exact Hc].
Defined.

Lemma image_unacceptable_iff_witness :
  fst (swift_temp_url Sample.conf Sample.backend 1000 ∅ Sample.empty_state)
  = inl ImageUnacceptable.
Proof.
  destruct (image_unacceptable_iff Sample.conf Sample.backend 1000 ∅
              Sample.empty_state 0) as ((_ & Hback) & _);
    [cbn; lia | reflexivity | lia |].
  apply Hback. left. reflexivity.
Defined.

(** ** The endpoint and its [/v1/AUTH_<tenant>] segment *)
Section Endpoint.

Context `{Libs}.

Lemma sub_auth_eq (s : string) :
  Re.sub_auth s
  = match Re.match_at s with
    | Some rest => rest
    | None =>
        match s with
        | EmptyString => EmptyString
        | String c s' => String c (Re.sub_auth s')
        end
    end.
Proof. destruct s; reflexivity. Qed.

Lemma strip_prefix_app (p r : string) : Re.strip_prefix p (p ++ r) = Some r.
Proof.
  induction p as [|c p IH]; cbn; [reflexivity|].
  now rewrite Ascii.eqb_refl.
Qed.

Lemma strip_prefix_Some (p s r : string) :
  Re.strip_prefix p s = Some r -> s = p ++ r.
Proof.
  revert s; induction p as [|c p IH]; intros s; cbn.
  - now intros [= ->].
  - destruct s as [|d s]; [discriminate|].
    destruct (Ascii.eqb_spec c d) as [->|Hne]; [|discriminate].
    intros Hs. now rewrite (IH _ Hs).
Qed.

Lemma count_zero_cons (c : ascii) (t : string) :
  PyStr.count "/" (String c t) = O ->
  Ascii.eqb c "/" = false /\ PyStr.count "/" t = O.
Proof. cbn. destruct (Ascii.eqb c "/"); [discriminate | now split]. Qed.

Lemma at_end_inv (r : string) :
  Re.at_end r = true ->
  r = EmptyString \/ r = String Re.newline EmptyString.
Proof.
  destruct r as [|c [|d r]]; intros Hr; [now left | right | discriminate].
  unfold Re.at_end in Hr. apply Ascii.eqb_eq in Hr. now subst.
Qed.

Lemma opt_slash_end_slash (r rest : string) :
  Re.opt_slash_end (String "/" r) = Some rest ->
  Re.at_end r = true /\ rest = r.
Proof.
  unfold Re.opt_slash_end. rewrite Ascii.eqb_refl.
  destruct (Re.at_end r); [now intros [= <-]|].
  destruct r; cbn; discriminate.
Qed.

Lemma opt_slash_end_other (c : ascii) (r rest : string) :
  Ascii.eqb c "/" = false ->
  Re.opt_slash_end (String c r) = Some rest ->
  r = EmptyString.
Proof.
  intros Hne. unfold Re.opt_slash_end. rewrite Hne.
  destruct (Re.at_end (String c r)) eqn:Hr; [|discriminate].
  intros _. apply at_end_inv in Hr as [Hr|Hr]; [discriminate|].
  now injection Hr.
Qed.

Lemma not_slash_star_cons (c : ascii) (r : string) :
  Re.not_slash_star (String c r)
  = if Ascii.eqb c "/" then Re.opt_slash_end (String c r)
    else match Re.not_slash_star r with
         | Some rest => Some rest
         | None => Re.opt_slash_end (String c r)
         end.
Proof. reflexivity. Qed.

Lemma not_slash_star_inv (r rest : string) :
  Re.not_slash_star r = Some rest ->
  exists t o, r = t ++ o /\ PyStr.count "/" t = O /\ tail_of_match o rest.
Proof.
  induction r as [|c r IH].
  - cbn. intros [= <-]. exists EmptyString, EmptyString.
    repeat split; constructor.
  - rewrite not_slash_star_cons.
    destruct (Ascii.eqb_spec c "/") as [->|Hne].
    + intros Hend. apply opt_slash_end_slash in Hend as [Hr ->].
      apply at_end_inv in Hr as [-> | ->].
      * exists EmptyString, "/". repeat split; constructor.
      * exists EmptyString, (String "/" (String Re.newline EmptyString)).
        repeat split; constructor.
    + apply Ascii.eqb_neq in Hne.
      destruct (Re.not_slash_star r) as [rest'|] eqn:Hstar.
      * intros [= <-]. destruct (IH eq_refl) as (t & o & -> & Hc & Ho).
        exists (String c t), o. split; [reflexivity|]. split; [|exact Ho].
        cbn. now rewrite Hne.
      * intros Hend. apply (opt_slash_end_other c r rest Hne) in Hend as ->.
        discriminate Hstar.
Qed.

(** After a run without slashes, what [/?$] leaves is what the whole of
    [[^/]*/?$] leaves. *)
Lemma not_slash_star_run (t o rest : string) :
  PyStr.count "/" t = O ->
  o = EmptyString \/ (exists o', o = String "/" o') ->
  Re.opt_slash_end o = Some rest ->
  Re.not_slash_star (t ++ o) = Some rest.
Proof.
  intros Hc Ho Hend. induction t as [|c t IH].
  - cbn [String.append]. destruct Ho as [-> | [o' ->]]; [exact Hend|].
    rewrite not_slash_star_cons, Ascii.eqb_refl. exact Hend.
  - apply count_zero_cons in Hc as [Hne Hc]. cbn [String.append].
    rewrite not_slash_star_cons, Hne. now rewrite (IH Hc).
Qed.

Lemma match_at_inv (s rest : string) :
  Re.match_at s = Some rest ->
  exists t o, s = "/v1/AUTH_" ++ t ++ o /\ t <> EmptyString
              /\ PyStr.count "/" t = O /\ tail_of_match o rest.
Proof.
  unfold Re.match_at.
  destruct (Re.strip_prefix "/v1/AUTH_" s) as [r|] eqn:Hp; [|discriminate].
  apply strip_prefix_Some in Hp as ->.
  unfold Re.not_slash_plus. destruct r as [|c r]; [discriminate|].
  destruct (Ascii.eqb_spec c "/") as [->|Hne]; [discriminate|].
  intros Hstar. apply not_slash_star_inv in Hstar as (t & o & -> & Hc & Ho).
  exists (String c t), o. split; [reflexivity|]. split; [discriminate|].
  split; [|exact Ho].
  cbn. destruct (Ascii.eqb_spec c "/"); [contradiction | exact Hc].
Qed.

Lemma match_at_segment (t o rest : string) :
  t <> EmptyString -> PyStr.count "/" t = O -> tail_of_match o rest ->
  Re.match_at ("/v1/AUTH_" ++ t ++ o) = Some rest.
Proof.
  intros Ht Hc Ho. unfold Re.match_at. rewrite strip_prefix_app.
  destruct t as [|c t]; [contradiction|].
  apply count_zero_cons in Hc as [Hne Hc]. cbn. rewrite Hne.
  apply not_slash_star_run; [exact Hc | |].
  - destruct Ho; [now left | right; now eexists | right; now eexists].
  - destruct Ho; reflexivity.
Qed.

Lemma tail_count (o rest : string) :
  tail_of_match o rest -> (PyStr.count "/" o <= 1)%nat.
Proof. intros []; cbn; lia. Qed.

(** The pattern does not match where a whole segment still follows. *)
Lemma no_match_before_segment (p x : string) :
  p <> EmptyString -> Re.match_at (p ++ "/v1/AUTH_" ++ x) = None.
Proof.
  intros Hne. destruct (Re.match_at _) as [rest|] eqn:Hm; [|reflexivity].
  exfalso. apply match_at_inv in Hm as (t & o & Heq & _ & Hc & Ho).
  apply tail_count in Ho.
  assert (Hle : (PyStr.count "/" (t ++ o) <= 1)%nat)
    by (rewrite count_app; lia).
  clear Hc Ho. revert Heq Hle. generalize (t ++ o). intros r Heq Hle.
  destruct p as [|c1 p]; [contradiction|].
  do 8 (destruct p as [|? p]; [cbn in Heq; simplify_eq|]).
  cbn in Heq. simplify_eq.
  rewrite count_app in Hle. cbn in Hle. lia.
Qed.

Lemma sub_auth_segment (p t o rest : string) :
  t <> EmptyString -> PyStr.count "/" t = O -> tail_of_match o rest ->
  Re.sub_auth (p ++ "/v1/AUTH_" ++ t ++ o) = p ++ rest.
Proof.
  intros Ht Hc Ho. induction p as [|c p IH].
  - change (Re.sub_auth ("/v1/AUTH_" ++ t ++ o) = rest).
    rewrite sub_auth_eq.
    now rewrite (match_at_segment t o rest Ht Hc Ho).
  - rewrite sub_auth_eq.
    rewrite (no_match_before_segment (String c p) (t ++ o)) by discriminate.
    change (String c (Re.sub_auth (p ++ "/v1/AUTH_" ++ t ++ o))
            = String c (p ++ rest)).
    now rewrite IH.
Qed.

Lemma sub_auth_no_match (s : string) :
  (forall p s', s = p ++ s' -> Re.match_at s' = None) -> Re.sub_auth s = s.
Proof.
  induction s as [|c s IH]; intros Hno.
  - rewrite sub_auth_eq. now rewrite (Hno EmptyString EmptyString eq_refl).
  - rewrite sub_auth_eq. rewrite (Hno EmptyString (String c s) eq_refl).
    rewrite IH; [reflexivity|].
    intros p s' ->. apply (Hno (String c p) s'). reflexivity.
Qed.

Lemma sub_auth_unchanged (s : string) :
  ~ Re.ends_with_auth_nl s -> Re.sub_auth s = s.
Proof.
  intros Hno. apply sub_auth_no_match. intros p s' ->.
  destruct (Re.match_at s') as [rest|] eqn:Hm; [|reflexivity].
  exfalso. apply Hno.
  apply match_at_inv in Hm as (t & o & -> & Ht & Hc & Ho).
  exists p, t, o. split; [reflexivity|]. split; [exact Ht|].
  split; [exact Hc|]. destruct Ho; auto.
Qed.

(** Two catalog endpoints that [re.sub] maps to the same text give the
    same call. *)
Lemma swift_temp_url_same_endpoint (conf : Conf) (be : Backend) (now : Z)
    (image_info : gmap string string) (st : state) (e1 e2 : string) :
  PyStr.truthy (swift_endpoint_url conf) = false ->
  e1 <> EmptyString -> e2 <> EmptyString ->
  Re.sub_auth e1 = Re.sub_auth e2 ->
  swift_temp_url conf (with_catalog e1 be) now image_info st
  = swift_temp_url conf (with_catalog e2 be) now image_info st.
Proof.
  intros Hc H1 H2 Hsub.
  destruct e1 as [|c1 e1]; [contradiction|].
  destruct e2 as [|c2 e2]; [contradiction|].
  destruct (validate_cases conf st) as [[_ Hok]|[_ Hbad]].
  2:{ now rewrite !swift_temp_url_invalid by assumption. }
  destruct Hok as (Hdur & n & Hs & Hn).
  rewrite !(swift_temp_url_run conf _ now image_info st n Hdur Hs Hn).
  unfold resolved_endpoint. rewrite Hc. cbn [with_catalog catalog_endpoint].
  destruct (image_info !! "id") as [image_id|]; [|reflexivity].
  destruct (is_uuid_like image_id); [|reflexivity].
  change (resolved_key conf (with_catalog (String c1 e1) be))
    with (resolved_key conf be).
  change (resolved_key conf (with_catalog (String c2 e2) be))
    with (resolved_key conf be).
  destruct (resolved_key conf be) as [[|k ks]|]; try reflexivity.
  rewrite Hsub. reflexivity.
Qed.

(** C10, as the code has it. A trailing segment [/v1/AUTH_<tenant>], with
    or without a slash after it, is cut from the endpoint, so a catalog
    endpoint of that form gives the same call as the bare endpoint; when a
    newline follows the slash at the end, the segment is cut and the
    newline stays; an endpoint with no such segment at its end, a final
    newline passed over, is used as it is; and the URL is composed from
    the endpoint so treated. *)
Theorem endpoint_segment_stripped (conf : Conf) (be : Backend) (now : Z)
    (image_info : gmap string string) (st : state) (p t : string)
    (Ht : t <> EmptyString) (Hc : PyStr.count "/" t = O) :
  Re.sub_auth (p ++ "/v1/AUTH_" ++ t) = p
  /\ Re.sub_auth (p ++ "/v1/AUTH_" ++ t ++ "/") = p
  /\ Re.sub_auth (p ++ "/v1/AUTH_" ++ t
                    ++ String "/" (String Re.newline EmptyString))
     = p ++ String Re.newline EmptyString
  /\ (forall s, ~ Re.ends_with_auth_nl s -> Re.sub_auth s = s)
  /\ (p <> EmptyString -> Re.sub_auth p = p ->
      PyStr.truthy (swift_endpoint_url conf) = false ->
      forall o, o = EmptyString \/ o = "/" ->
        swift_temp_url conf (with_catalog (p ++ "/v1/AUTH_" ++ t ++ o) be)
          now image_info st
        = swift_temp_url conf (with_catalog p be) now image_info st)
  /\ (forall n image_id c e k ks,
        swift_temp_url_expected_download_start_delay conf
        <= swift_temp_url_duration conf ->
        swift_store_multiple_containers_seed conf = Some n -> 0 <= n <= 32 ->
        image_info !! "id" = Some image_id -> is_uuid_like image_id = true ->
        resolved_endpoint conf be = Some (String c e) ->
        resolved_key conf be = Some (String k ks) ->
        swift_temp_url conf be now image_info st
        = _generate_temp_url conf now (object_path conf be n image_id)
            (swift_temp_url_duration conf) (String k ks) "GET"
            (Re.sub_auth (String c e)) image_id
            (logged (endpoint_lookups conf ++ account_lookups conf
                     ++ key_lookups conf) st)).
Proof.
  assert (H1 : Re.sub_auth (p ++ "/v1/AUTH_" ++ t) = p).
  { pose proof (sub_auth_segment p t _ _ Ht Hc tail_end) as Hs.
    now rewrite !str_app_nil_r in Hs. }
  assert (H2 : Re.sub_auth (p ++ "/v1/AUTH_" ++ t ++ "/") = p).
  { pose proof (sub_auth_segment p t _ _ Ht Hc tail_slash) as Hs.
    now rewrite str_app_nil_r in Hs. }
  split; [exact H1|]. split; [exact H2|].
  split; [exact (sub_auth_segment p t _ _ Ht Hc tail_slash_nl)|].
  split; [exact sub_auth_unchanged|]. split.
  - intros Hp Hbare Hcfg o Ho.
    apply swift_temp_url_same_endpoint; try assumption.
    + destruct p; [contradiction | discriminate].
    + rewrite Hbare. destruct Ho as [-> | ->]; [|exact H2].
      now rewrite str_app_nil_r.
  - intros n image_id c e k ks Hdur Hs Hn Hid Hu He Hk.
    rewrite (swift_temp_url_run conf be now image_info st n Hdur Hs Hn).
    now rewrite Hid, Hu, He, Hk.
Qed.

End Endpoint.

Lemma endpoint_segment_stripped_witness :
  Re.sub_auth "https://h:8080/v1/AUTH_abc/" = "https://h:8080"
  /\ swift_temp_url Sample.without_endpoint
       (Sample.catalog "https://h:8080/v1/AUTH_abc/") 1000 Sample.image_info
       Sample.empty_state
     = swift_temp_url Sample.without_endpoint (Sample.catalog "https://h:8080")
         1000 Sample.image_info Sample.empty_state.
Proof.
  destruct (endpoint_segment_stripped Sample.without_endpoint Sample.backend
              1000 Sample.image_info Sample.empty_state "https://h:8080" "abc")
    as (_ & Hslash & _ & _ & Hsame & _); [discriminate | reflexivity |].
  split; [exact Hslash|].
  apply (Hsame ltac:(discriminate) eq_refl eq_refl "/"). now right.
Defined.

(** C10 as stated fails on an endpoint whose segment and slash are
    followed by a newline: it does not end with the segment or with the
    segment and a slash, yet it is not used as it is. *)
Lemma endpoint_newline_counterexample :
  let e := "https://h/v1/AUTH_t/" ++ String Re.newline EmptyString in
  ~ Re.ends_with_auth e
  /\ Re.sub_auth e = "https://h" ++ String Re.newline EmptyString
  /\ Re.sub_auth e <> e
  /\ fst (swift_temp_url Sample.without_endpoint (Sample.catalog e) 1000
            Sample.image_info Sample.empty_state)
     = inr (("https://h" ++ String Re.newline EmptyString)
            ++ "/v1/AUTH_acct/glance/3a1bcdef-0123-4567-89ab-cdef01234567"
            ++ "?temp_url_sig=GETsecret&temp_url_expires=2200").
Proof.
  cbv zeta. split; [|split; [|split]].
  - intros (p & t & o & Heq & Ht & Hc & Ho).
    assert (Hp : Re.sub_auth
                   ("https://h/v1/AUTH_t/" ++ String Re.newline EmptyString)
                 = p).
    { rewrite Heq.
      destruct Ho as [-> | ->].
      - pose proof (sub_auth_segment p t _ _ Ht Hc tail_end) as Hs.
        rewrite !str_app_nil_r in Hs. rewrite str_app_nil_r. exact Hs.
      - pose proof (sub_auth_segment p t _ _ Ht Hc tail_slash) as Hs.
        now rewrite str_app_nil_r in Hs. }
    vm_compute in Hp. subst p. vm_compute in Heq. discriminate Heq.
  - vm_compute. reflexivity.
  - vm_compute. discriminate.
  - vm_compute. reflexivity.
Qed.

(** * Further properties of the image service *)

(** ** Pruning *)
Section Pruning.

Lemma option_ext {A} (a b : option A) :
  (forall v, a = Some v <-> b = Some v) -> a = b.
Proof.
  intros Hab. destruct a as [x|].
  - symmetry. now apply Hab.
  - destruct b as [y|]; [|reflexivity]. now apply Hab.
Qed.

(** X1. Pruning at a later time absorbs an earlier pruning, pruning twice
    at the same time changes nothing more, and pruning only ever drops
    entries. *)
Theorem pruned_absorbs (conf : Conf) (now1 now2 : Z)
    (c : gmap string TempUrlCacheElement) (Hle : now1 <= now2) :
  pruned conf now2 (pruned conf now1 c) = pruned conf now2 c
  /\ pruned conf now1 (pruned conf now1 c) = pruned conf now1 c
  /\ pruned conf now1 c ⊆ c
  /\ pruned conf now2 c ⊆ pruned conf now1 c.
Proof.
  split; [|split; [|split]].
  - apply map_eq. intros k. apply option_ext. intros v.
    rewrite !pruned_lookup_Some. intuition lia.
  - apply map_eq. intros k. apply option_ext. intros v.
    rewrite !pruned_lookup_Some. intuition lia.
  - apply map_subseteq_spec. intros k v Hk.
    now apply pruned_lookup_Some in Hk.
  - apply map_subseteq_spec. intros k v Hk.
    apply pruned_lookup_Some in Hk as [Hk Hv].
    apply pruned_lookup_Some. split; [assumption | lia].
Qed.

Lemma pruned_absorbs_witness :
  pruned Sample.conf 2000 (pruned Sample.conf 95 Cases.two_entries)
  = pruned Sample.conf 2000 Cases.two_entries.
Proof.
  apply (pruned_absorbs Sample.conf 95 2000 Cases.two_entries). lia.
Defined.

End Pruning.

(** ** Other identifiers, and the cache switched off *)
Section Frame.

Context `{Libs}.

(** X2. With caching enabled, a call of [_generate_temp_url] leaves the
    entry of every other identifier as pruning leaves it: kept unchanged
    when it is live, dropped when it is stale. *)
Theorem generate_temp_url_frame (conf : Conf) (now : Z) (path : string)
    (seconds : Z) (key method endpoint image_id : string) (st : state)
    (k : string)
    (Hen : swift_temp_url_cache_enabled conf = true)
    (Hk : k <> image_id) :
  _cache (snd (_generate_temp_url conf now path seconds key method endpoint
                 image_id st)) !! k
  = pruned conf now (_cache st) !! k.
Proof.
  rewrite generate_temp_url_enabled by assumption.
  destruct (pruned conf now (_cache st) !! image_id) as [e|]; [reflexivity|].
  rewrite sign_and_store_run, Hen. cbv zeta.
  destruct (expiry_of _) as [x|exp]; cbn [snd _cache set_cache];
    [reflexivity|].
  apply lookup_insert_ne. congruence.
Qed.

(** X3. With caching disabled, [swift_temp_url] never touches the cache,
    stale entries included; it fails only with one of its three own
    errors, without signing, and every URL it returns was signed in the
    call. *)
Theorem cache_disabled_untouched (conf : Conf) (be : Backend) (now : Z)
    (image_info : gmap string string) (st : state) :
  swift_temp_url_cache_enabled conf = false ->
  let r := swift_temp_url conf be now image_info st in
  _cache (snd r) = _cache st
  /\ (forall x, fst r = inl x ->
                sign_calls (snd r) = sign_calls st
                /\ (x = InvalidParameterValue \/ x = ImageUnacceptable
                    \/ x = MissingParameterValue))
  /\ (forall u, fst r = inr u -> sign_calls (snd r) = S (sign_calls st)).
Proof.
  intros Hdis r. unfold r.
  destruct (no_sign_in_lookups conf) as [Hall Hep].
  destruct (validate_cases conf st) as [[_ Hok]|[_ Hbad]].
  2:{ rewrite swift_temp_url_invalid by assumption. cbn.
      split; [reflexivity|]. split; [|discriminate].
      intros x [= <-]. split; [reflexivity | now left]. }
  destruct Hok as (Hdur & n & Hs & Hn).
  rewrite (swift_temp_url_run conf be now image_info st n Hdur Hs Hn).
  destruct (image_info !! "id") as [image_id|].
  2:{ cbn. split; [reflexivity|]. split; [|discriminate].
      intros x [= <-]. split; [reflexivity | right; now left]. }
  destruct (is_uuid_like image_id).
  2:{ cbn. split; [reflexivity|]. split; [|discriminate].
      intros x [= <-]. split; [reflexivity | right; now left]. }
  destruct (resolved_endpoint conf be) as [[|c e]|].
  1,3: cbn [fst snd]; split; [reflexivity|]; split; [|discriminate];
       intros x [= <-]; split;
       [rewrite sign_calls_logged, Hep; cbn; lia | right; now right].
  destruct (resolved_key conf be) as [[|k ks]|].
  1,3: cbn [fst snd]; split; [reflexivity|]; split; [|discriminate];
       intros x [= <-]; split;
       [rewrite sign_calls_logged, Hall; cbn; lia | right; now right].
  rewrite generate_temp_url_disabled by assumption. cbn [fst snd _cache].
  split; [reflexivity|]. split; [discriminate|]. intros u _.
  rewrite (sign_calls_snoc (logged _ st)), sign_calls_logged, Hall. cbn. lia.
Qed.

End Frame.

Lemma generate_temp_url_frame_witness :
  _cache (snd (_generate_temp_url Sample.conf 95 "/v1/a/c/o" 1200 "k" "GET"
                 "https://h" "c"
                 {| _cache := Cases.two_entries; calls := [] |})) !! "a"
  = None.
Proof.
  rewrite (generate_temp_url_frame Sample.conf 95 "/v1/a/c/o" 1200 "k" "GET"
             "https://h" "c" {| _cache := Cases.two_entries; calls := [] |}
             "a"); [|reflexivity|discriminate].
  vm_compute. reflexivity.
Defined.

Lemma cache_disabled_untouched_witness :
  _cache (snd (swift_temp_url Cases.uncached Sample.backend 3000
                 Sample.image_info (Sample.cached 100)))
  = _cache (Sample.cached 100).
Proof.
  apply (cache_disabled_untouched Cases.uncached Sample.backend 3000
           Sample.image_info (Sample.cached 100)).
  reflexivity.
Defined.

(** ** The URLs [swift_temp_url] returns *)
Section Urls.

Context `{Libs}.

Lemma generate_temp_url_calls (conf : Conf) (now : Z) (path : string)
    (seconds : Z) (key method endpoint image_id : string) (st : state) :
  let r :=
    _generate_temp_url conf now path seconds key method endpoint image_id st in
  calls (snd r) = calls st
  \/ calls (snd r)
     = (calls st ++ [GenerateTempUrl path seconds key method])%list.
Proof.
  intros r. unfold r. destruct (swift_temp_url_cache_enabled conf) eqn:Hen.
  - rewrite generate_temp_url_enabled by assumption.
    destruct (pruned conf now (_cache st) !! image_id); [now left|].
    rewrite sign_and_store_run, Hen. cbv zeta.
    destruct (expiry_of _); now right.
  - rewrite generate_temp_url_disabled by assumption. now right.
Qed.

Lemma generate_temp_url_returns (conf : Conf) (now : Z) (path : string)
    (seconds : Z) (key method endpoint image_id : string) (st : state)
    (u : string) :
  fst (_generate_temp_url conf now path seconds key method endpoint image_id st)
  = inr u ->
  u = signed_url now path seconds key method endpoint
  \/ (swift_temp_url_cache_enabled conf = true
      /\ exists entry, _cache st !! image_id = Some entry /\ url entry = u
                       /\ now + swift_temp_url_expected_download_start_delay conf
                          <= url_expires_at entry).
Proof.
  destruct (swift_temp_url_cache_enabled conf) eqn:Hen.
  - rewrite generate_temp_url_enabled by assumption.
    destruct (pruned conf now (_cache st) !! image_id) as [e|] eqn:Hid.
    + cbn. intros [= <-]. right. split; [reflexivity|].
      apply pruned_lookup_Some in Hid as [Hid Hlive]. now exists e.
    + rewrite sign_and_store_run, Hen. cbv zeta.
      destruct (expiry_of _); cbn; [discriminate|]. intros [= <-]. now left.
  - rewrite generate_temp_url_disabled by assumption. cbn.
    intros [= <-]. now left.
Qed.

(** X4. What a returned URL is and what it takes: the configuration is
    valid, the image info carries a UUID-like id, an endpoint and a key
    were resolved, and the URL is either the stripped endpoint followed by
    what the signing primitive gave for
    [/{api_version}/{account}/{container}/{object_id}], the configured
    duration and [GET], or the URL of a live entry of the cache. *)
Theorem returned_url_shape (conf : Conf) (be : Backend) (now : Z)
    (image_info : gmap string string) (st : state) (u : string)
    (Hok : fst (swift_temp_url conf be now image_info st) = inr u) :
  config_valid conf
  /\ exists n image_id c e k ks,
       swift_store_multiple_containers_seed conf = Some n
       /\ image_info !! "id" = Some image_id
       /\ is_uuid_like image_id = true
       /\ resolved_endpoint conf be = Some (String c e)
       /\ resolved_key conf be = Some (String k ks)
       /\ (u = Re.sub_auth (String c e)
               ++ generate_temp_url now
                    ("/" ++ swift_api_version conf ++ "/"
                         ++ resolved_account conf be ++ "/"
                         ++ container_for_seed n (swift_container conf) image_id
                         ++ "/" ++ image_id)
                    (swift_temp_url_duration conf) (String k ks) "GET"
           \/ (swift_temp_url_cache_enabled conf = true
               /\ exists entry,
                    _cache st !! image_id = Some entry /\ url entry = u
                    /\ now + swift_temp_url_expected_download_start_delay conf
                       <= url_expires_at entry)).
Proof.
  destruct (validate_cases conf st) as [[_ Hv]|[_ Hbad]].
  2:{ rewrite swift_temp_url_invalid in Hok by assumption. discriminate. }
  split; [exact Hv|]. destruct Hv as (Hdur & n & Hs & Hn).
  rewrite (swift_temp_url_run conf be now image_info st n Hdur Hs Hn) in Hok.
  destruct (image_info !! "id") as [image_id|]; [|discriminate].
  destruct (is_uuid_like image_id) eqn:Hu; [|discriminate].
  destruct (resolved_endpoint conf be) as [[|c e]|]; try discriminate.
  destruct (resolved_key conf be) as [[|k ks]|]; try discriminate.
  exists n, image_id, c, e, k, ks.
  split; [exact Hs|]. split; [reflexivity|]. split; [exact Hu|].
  split; [reflexivity|]. split; [reflexivity|].
  apply generate_temp_url_returns in Hok. exact Hok.
Qed.

(** X5. A request that passes every check and finds no live entry for its
    image (or no cache at all) signs once and returns the composed URL;
    the outside calls are the lookups it needed and then the signing, for
    [GET] and the configured duration, and with the cache on the URL is
    stored under the image id with the expiry read from it. *)
Theorem fresh_url_composed (conf : Conf) (be : Backend) (now : Z)
    (image_info : gmap string string) (st : state) (n : Z)
    (image_id : string) (c : ascii) (e : string) (k : ascii) (ks : string)
    (Hdur : swift_temp_url_expected_download_start_delay conf
            <= swift_temp_url_duration conf)
    (Hseed : swift_store_multiple_containers_seed conf = Some n)
    (Hn : 0 <= n <= 32)
    (Hid : image_info !! "id" = Some image_id)
    (Huuid : is_uuid_like image_id = true)
    (Hep : resolved_endpoint conf be = Some (String c e))
    (Hkey : resolved_key conf be = Some (String k ks)) :
  let r := swift_temp_url conf be now image_info st in
  let path :=
    "/" ++ swift_api_version conf ++ "/" ++ resolved_account conf be ++ "/"
        ++ container_for_seed n (swift_container conf) image_id
        ++ "/" ++ image_id in
  let u :=
    Re.sub_auth (String c e)
      ++ generate_temp_url now path (swift_temp_url_duration conf)
           (String k ks) "GET" in
  let log :=
    (calls st ++ endpoint_lookups conf ++ account_lookups conf
       ++ key_lookups conf
       ++ [GenerateTempUrl path (swift_temp_url_duration conf)
             (String k ks) "GET"])%list in
  (swift_temp_url_cache_enabled conf = false ->
   r = (inr u, {| _cache := _cache st; calls := log |}))
  /\ (swift_temp_url_cache_enabled conf = true ->
      pruned conf now (_cache st) !! image_id = None ->
      forall exp, expiry_of u = inr exp ->
      r = (inr u,
           {| _cache :=
                <[image_id := {| url := u; url_expires_at := exp |}]>
                  (pruned conf now (_cache st));
              calls := log |})).
Proof.
  intros r path u log. unfold r.
  rewrite (swift_temp_url_run conf be now image_info st n Hdur Hseed Hn).
  rewrite Hid, Huuid, Hep, Hkey.
  assert (Hlog : (calls (logged (endpoint_lookups conf ++ account_lookups conf
                                  ++ key_lookups conf) st)
                  ++ [GenerateTempUrl path (swift_temp_url_duration conf)
                        (String k ks) "GET"])%list = log).
  { unfold log, logged. cbn [calls]. now rewrite <- !List.app_assoc. }
  split.
  - intros Hdis. rewrite generate_temp_url_disabled by assumption.
    apply (f_equal2 pair); [reflexivity|].
    apply (f_equal2 Build_state); [reflexivity | exact Hlog].
  - intros Hen Hmiss exp Hexp.
    rewrite generate_temp_url_enabled by assumption.
    cbn [_cache logged]. rewrite Hmiss.
    rewrite sign_and_store_run, Hen. cbv zeta.
    change (signed_url now (object_path conf be n image_id)
              (swift_temp_url_duration conf) (String k ks) "GET"
              (Re.sub_auth (String c e))) with u.
    rewrite Hexp.
    apply (f_equal2 pair); [reflexivity|].
    apply (f_equal2 Build_state); [reflexivity | exact Hlog].
Qed.

(** X6. A request that passes every check and finds a live entry for its
    image gets the cached URL, whatever endpoint, account and key it has
    just resolved; the lookups were made all the same, nothing was signed,
    and the cache was only pruned. *)
Theorem live_entry_returned (conf : Conf) (be : Backend) (now : Z)
    (image_info : gmap string string) (st : state) (n : Z)
    (image_id : string) (entry : TempUrlCacheElement)
    (Hdur : swift_temp_url_expected_download_start_delay conf
            <= swift_temp_url_duration conf)
    (Hseed : swift_store_multiple_containers_seed conf = Some n)
    (Hn : 0 <= n <= 32)
    (Hid : image_info !! "id" = Some image_id)
    (Huuid : is_uuid_like image_id = true)
    (Hep : PyStr.truthy (resolved_endpoint conf be) = true)
    (Hkey : PyStr.truthy (resolved_key conf be) = true)
    (Hen : swift_temp_url_cache_enabled conf = true)
    (Hentry : _cache st !! image_id = Some entry)
    (Hlive : now + swift_temp_url_expected_download_start_delay conf
             <= url_expires_at entry) :
  swift_temp_url conf be now image_info st
  = (inr (url entry),
     {| _cache := pruned conf now (_cache st);
        calls := (calls st ++ endpoint_lookups conf ++ account_lookups conf
                    ++ key_lookups conf)%list |}).
Proof.
  rewrite (swift_temp_url_run conf be now image_info st n Hdur Hseed Hn).
  rewrite Hid, Huuid.
  destruct (resolved_endpoint conf be) as [[|c e]|]; try discriminate.
  destruct (resolved_key conf be) as [[|k ks]|]; try discriminate.
  now rewrite (generate_temp_url_hit conf now _ _ _ _ _ image_id
                 (logged _ st) entry Hen Hentry Hlive).
Qed.

(** X7. Whatever the input, a call of [swift_temp_url] goes outside in a
    fixed order, each step at most once: the catalog, the auth reference,
    the account metadata, and last the signing primitive, which is only
    ever asked for [GET] and the configured duration. *)
Theorem outside_calls_shape (conf : Conf) (be : Backend) (now : Z)
    (image_info : gmap string string) (st : state) :
  exists lookups signs,
    calls (snd (swift_temp_url conf be now image_info st))
    = (calls st ++ lookups ++ signs)%list
    /\ sublist lookups [GetEndpoint; GetAuthRef; HeadAccount]
    /\ (signs = []
        \/ exists path key,
             signs = [GenerateTempUrl path (swift_temp_url_duration conf)
                        key "GET"]).
Proof.
  assert (Hnone : exists lookups signs : list event,
            calls st = (calls st ++ lookups ++ signs)%list
            /\ sublist lookups [GetEndpoint; GetAuthRef; HeadAccount]
            /\ (signs = []
                \/ exists path key,
                     signs = [GenerateTempUrl path
                                (swift_temp_url_duration conf) key "GET"])).
  { exists [], []. split; [now rewrite List.app_nil_r|].
    split; [apply sublist_nil_l | now left]. }
  assert (Hsub1 : sublist (endpoint_lookups conf)
                    [GetEndpoint; GetAuthRef; HeadAccount]).
  { unfold endpoint_lookups.
    destruct (PyStr.truthy (swift_endpoint_url conf)); repeat constructor. }
  assert (Hsub3 : sublist (endpoint_lookups conf ++ account_lookups conf
                           ++ key_lookups conf)%list
                    [GetEndpoint; GetAuthRef; HeadAccount]).
  { unfold endpoint_lookups, account_lookups, key_lookups.
    destruct (PyStr.truthy (swift_endpoint_url conf)),
      (PyStr.truthy (swift_account conf)),
      (PyStr.truthy (swift_temp_url_key conf)); cbn; repeat constructor. }
  destruct (validate_cases conf st) as [[_ Hok]|[_ Hbad]].
  2:{ now rewrite swift_temp_url_invalid by assumption. }
  destruct Hok as (Hdur & n & Hs & Hn).
  rewrite (swift_temp_url_run conf be now image_info st n Hdur Hs Hn).
  destruct (image_info !! "id") as [image_id|]; [|exact Hnone].
  destruct (is_uuid_like image_id); [|exact Hnone].
  destruct (resolved_endpoint conf be) as [[|c e]|].
  1,3: exists (endpoint_lookups conf), []; cbn [snd logged calls];
       rewrite List.app_nil_r; split; [reflexivity|];
       split; [exact Hsub1 | now left].
  destruct (resolved_key conf be) as [[|k ks]|].
  1,3: exists (endpoint_lookups conf ++ account_lookups conf
               ++ key_lookups conf)%list, []; cbn [snd logged calls];
       rewrite List.app_nil_r; split; [reflexivity|];
       split; [exact Hsub3 | now left].
  exists (endpoint_lookups conf ++ account_lookups conf
          ++ key_lookups conf)%list.
  destruct (generate_temp_url_calls conf now (object_path conf be n image_id)
              (swift_temp_url_duration conf) (String k ks) "GET"
              (Re.sub_auth (String c e)) image_id
              (logged (endpoint_lookups conf ++ account_lookups conf
                       ++ key_lookups conf) st)) as [Hc|Hc];
    cbv zeta in Hc; rewrite Hc.
  - exists []. cbn [logged calls]. rewrite List.app_nil_r.
    split; [reflexivity|]. split; [exact Hsub3 | now left].
  - eexists. cbn [logged calls]. rewrite <- List.app_assoc.
    split; [reflexivity|]. split; [exact Hsub3|]. right. now eexists _, _.
Qed.

End Urls.

Lemma returned_url_shape_witness : config_valid Sample.conf.
Proof.
  apply (returned_url_shape Sample.conf Sample.backend 1000 Sample.image_info
           Sample.empty_state
           ("https://swift.example/v1/AUTH_acct/glance/"
            ++ "3a1bcdef-0123-4567-89ab-cdef01234567"
            ++ "?temp_url_sig=GETsecret&temp_url_expires=2200")).
  vm_compute. reflexivity.
Defined.

Lemma fresh_url_composed_witness :
  fst (swift_temp_url Cases.uncached Sample.backend 1000 Sample.image_info
         (Sample.cached 100))
  = inr ("https://swift.example/v1/AUTH_acct/glance/"
         ++ "3a1bcdef-0123-4567-89ab-cdef01234567"
         ++ "?temp_url_sig=GETsecret&temp_url_expires=2200").
Proof.
  destruct (fresh_url_composed Cases.uncached Sample.backend 1000
              Sample.image_info (Sample.cached 100) 0 Sample.image_id
              "h" "ttps://swift.example" "s" "ecret") as [Hoff _];
    [cbn; lia | reflexivity | lia | reflexivity | reflexivity | reflexivity
    | reflexivity |].
  rewrite (Hoff eq_refl). vm_compute. reflexivity.
Defined.

Lemma live_entry_returned_witness :
  fst (swift_temp_url Sample.conf Sample.backend 1000 Sample.image_info
         (Sample.cached 2000))
  = inr "https://swift.example/u".
Proof.
  rewrite (live_entry_returned Sample.conf Sample.backend 1000
             Sample.image_info (Sample.cached 2000) 0 Sample.image_id
             {| url := "https://swift.example/u"; url_expires_at := 2000 |});
    [reflexivity | cbn; lia | reflexivity | lia | reflexivity | reflexivity
    | reflexivity | reflexivity | reflexivity | reflexivity | cbn; lia].
Defined.

(** ** More on the container name *)
Section ContainerName.

Lemma lower_char_idem (c : ascii) :
  PyStr.lower_char (PyStr.lower_char c) = PyStr.lower_char c.
Proof. destruct c as [[] [] [] [] [] [] [] []]; reflexivity. Qed.

Lemma lower_idem (s : string) : PyStr.lower (PyStr.lower s) = PyStr.lower s.
Proof.
  induction s as [|c s IH]; cbn; [reflexivity|].
  now rewrite lower_char_idem, IH.
Qed.

Lemma take_drop (n : nat) (s : string) : PyStr.take n s ++ PyStr.drop n s = s.
Proof.
  revert s; induction n as [|n IH]; intros [|c s]; cbn; try reflexivity.
  now rewrite IH.
Qed.

(** X8. The container depends on the identifier only through its
    lowercase form: identifiers that differ in case alone share a
    container, and lowercasing one beforehand changes nothing. *)
Theorem container_case_insensitive (conf : Conf) (id1 id2 : string)
    (Hlow : PyStr.lower id1 = PyStr.lower id2) :
  _get_swift_container conf id1 = _get_swift_container conf id2
  /\ _get_swift_container conf (PyStr.lower id1)
     = _get_swift_container conf id1.
Proof.
  unfold _get_swift_container, container_for_seed.
  destruct (swift_store_multiple_containers_seed conf) as [n|];
    [|split; reflexivity].
  destruct (0 <? n); [|split; reflexivity].
  cbv zeta. rewrite lower_idem, Hlow. split; reflexivity.
Qed.

Lemma container_case_insensitive_witness :
  _get_swift_container (Sample.with_seed 9) Cases.upper_id
  = _get_swift_container (Sample.with_seed 9) Sample.image_id.
Proof.
  apply (container_case_insensitive (Sample.with_seed 9) Cases.upper_id
           Sample.image_id).
  reflexivity.
Defined.

(** X9. For a positive seed the suffix is a prefix of the lowercased
    identifier, as long as the seed plus the separators of the window or
    as the whole identifier if that is shorter, and never longer than
    twice the seed. *)
Theorem name_suffix_is_prefix (n : Z) (image_id : string) (Hn : 0 < n) :
  let low := PyStr.lower image_id in
  let d := PyStr.count "-" (PyStr.take (Z.to_nat n) low) in
  low = name_suffix n image_id ++ PyStr.drop (Z.to_nat n + d) low
  /\ String.length (name_suffix n image_id)
     = Nat.min (Z.to_nat n + d) (String.length image_id)
  /\ (String.length (name_suffix n image_id) <= 2 * Z.to_nat n)%nat.
Proof.
  intros low d. unfold name_suffix. cbv zeta. fold low. fold d.
  replace (Z.to_nat (n + Z.of_nat d)) with (Z.to_nat n + d)%nat by lia.
  split; [now rewrite take_drop|].
  rewrite length_take.
  assert (Hl : String.length low = String.length image_id)
    by apply length_lower.
  rewrite Hl. split; [reflexivity|].
  pose proof (count_split "-" (PyStr.take (Z.to_nat n) low)) as Hc.
  rewrite length_take in Hc. fold d in Hc. lia.
Qed.

Lemma name_suffix_is_prefix_witness :
  String.length (name_suffix 13 Sample.image_id) = 14%nat.
Proof.
  destruct (name_suffix_is_prefix 13 Sample.image_id) as (_ & Hlen & _);
    [lia|].
  rewrite Hlen. reflexivity.
Defined.

Lemma name_suffix_at_most_witness :
  (PyStr.count_other "-" (name_suffix 13 Sample.image_id) <= 13)%nat.
Proof. apply (name_suffix_at_most 13 Sample.image_id). lia. Defined.

End ContainerName.

(** ** More on the endpoint *)
Section EndpointShape.

Context `{Libs}.

(** X11. [re.sub] with the pattern leaves an endpoint as it is or cuts
    exactly one match from it: the segment, with its slash if any, at the
    end of the string or before a newline that ends it; what comes before
    the segment is never touched. *)
Theorem sub_auth_cases (s : string) :
  Re.sub_auth s = s
  \/ exists p t o rest,
       s = p ++ "/v1/AUTH_" ++ t ++ o /\ t <> EmptyString
       /\ PyStr.count "/" t = O /\ tail_of_match o rest
       /\ Re.sub_auth s = p ++ rest.
Proof.
  induction s as [|c s IH].
  - now left.
  - rewrite sub_auth_eq.
    destruct (Re.match_at (String c s)) as [rest|] eqn:Hm.
    + right. apply match_at_inv in Hm as (t & o & Heq & Ht & Hc & Ho).
      exists EmptyString, t, o, rest. now rewrite Heq.
    + destruct IH as [IH|(p & t & o & rest & Heq & Ht & Hc & Ho & Hs)].
      * left. now rewrite IH.
      * right. exists (String c p), t, o, rest.
        rewrite Heq at 1. rewrite Hs. repeat split; assumption.
Qed.

(** X12. The endpoint is tested for emptiness before the segment is cut:
    an endpoint that is nothing but the segment is accepted, and the URL
    is then composed from an empty endpoint, so that with the cache off it
    is just what the signing primitive returned. *)
Theorem endpoint_cut_to_nothing (conf : Conf) (be : Backend) (now : Z)
    (image_info : gmap string string) (st : state) (n : Z)
    (image_id t o : string) (k : ascii) (ks : string)
    (Hdur : swift_temp_url_expected_download_start_delay conf
            <= swift_temp_url_duration conf)
    (Hseed : swift_store_multiple_containers_seed conf = Some n)
    (Hn : 0 <= n <= 32)
    (Hid : image_info !! "id" = Some image_id)
    (Huuid : is_uuid_like image_id = true)
    (Ht : t <> EmptyString) (Hc : PyStr.count "/" t = O)
    (Ho : o = EmptyString \/ o = "/")
    (Hep : resolved_endpoint conf be = Some ("/v1/AUTH_" ++ t ++ o))
    (Hkey : resolved_key conf be = Some (String k ks)) :
  swift_temp_url conf be now image_info st
  = _generate_temp_url conf now (object_path conf be n image_id)
      (swift_temp_url_duration conf) (String k ks) "GET" EmptyString image_id
      (logged (endpoint_lookups conf ++ account_lookups conf
               ++ key_lookups conf) st)
  /\ (swift_temp_url_cache_enabled conf = false ->
      fst (swift_temp_url conf be now image_info st)
      = inr (generate_temp_url now (object_path conf be n image_id)
               (swift_temp_url_duration conf) (String k ks) "GET")).
Proof.
  assert (Hcut : Re.sub_auth ("/v1/AUTH_" ++ t ++ o) = EmptyString).
  { destruct Ho as [-> | ->].
    - exact (sub_auth_segment EmptyString t _ _ Ht Hc tail_end).
    - exact (sub_auth_segment EmptyString t _ _ Ht Hc tail_slash). }
  assert (Hrun : swift_temp_url conf be now image_info st
                 = _generate_temp_url conf now (object_path conf be n image_id)
                     (swift_temp_url_duration conf) (String k ks) "GET"
                     EmptyString image_id
                     (logged (endpoint_lookups conf ++ account_lookups conf
                              ++ key_lookups conf) st)).
  { rewrite (swift_temp_url_run conf be now image_info st n Hdur Hseed Hn).
    rewrite Hid, Huuid, Hep, Hkey.
    change ("/v1/AUTH_" ++ t ++ o) with (String "/" ("v1/AUTH_" ++ t ++ o)).
    cbv iota.
    change (String "/" ("v1/AUTH_" ++ t ++ o)) with ("/v1/AUTH_" ++ t ++ o).
    now rewrite Hcut. }
  split; [exact Hrun|].
  intros Hdis. rewrite Hrun, generate_temp_url_disabled by assumption.
  reflexivity.
Qed.

End EndpointShape.

Lemma endpoint_cut_to_nothing_witness :
  fst (swift_temp_url
            {| swift_temp_url_cache_enabled := false;
               swift_temp_url_duration := 1200;
               swift_temp_url_expected_download_start_delay := 10;
               swift_store_multiple_containers_seed := Some 0;
               swift_container := "glance";
               swift_api_version := "v1";
               swift_endpoint_url := Some "/v1/AUTH_acct/";
               swift_temp_url_key := Some "secret";
               swift_account := Some "AUTH_acct" |}
            Sample.backend 1000 Sample.image_info Sample.empty_state)
     = inr ("/v1/AUTH_acct/glance/3a1bcdef-0123-4567-89ab-cdef01234567"
            ++ "?temp_url_sig=GETsecret&temp_url_expires=2200").
Proof.
  destruct (endpoint_cut_to_nothing
              {| swift_temp_url_cache_enabled := false;
                 swift_temp_url_duration := 1200;
                 swift_temp_url_expected_download_start_delay := 10;
                 swift_store_multiple_containers_seed := Some 0;
                 swift_container := "glance";
                 swift_api_version := "v1";
                 swift_endpoint_url := Some "/v1/AUTH_acct/";
                 swift_temp_url_key := Some "secret";
                 swift_account := Some "AUTH_acct" |}
              Sample.backend 1000 Sample.image_info Sample.empty_state 0
              Sample.image_id "acct" "/" "s" "ecret") as [_ Hurl];
    [cbn; lia | reflexivity | lia | reflexivity | reflexivity | discriminate
    | reflexivity | now right | reflexivity | reflexivity |].
  rewrite (Hurl eq_refl). vm_compute. reflexivity.
Defined.

Lemma missing_credentials_fatal_witness :
  exists x,
    fst (swift_temp_url Sample.without_key Sample.backend 1000
           Sample.image_info Sample.empty_state) = inl x.
Proof.
  apply (missing_credentials_fatal Sample.without_key Sample.backend 1000
           Sample.image_info Sample.empty_state).
  right. reflexivity.
Defined.

(** * Properties of the API helpers *)
Section Limits.

(** X13. A limit that [validate_limit] accepts was positive, and what is
    returned is the smaller of it and [max_limit]; with a positive
    [max_limit] the result is positive and is accepted unchanged when
    validated again.  A limit that is zero or negative is refused, and no
    limit gives [max_limit]. *)
Theorem validate_limit_bounds (max_limit limit r : Z)
    (Hok : Api.validate_limit max_limit (Some limit) = inr r) :
  0 < limit /\ r <= max_limit /\ r <= limit
  /\ (r = limit \/ r = max_limit)
  /\ (0 < max_limit ->
      0 < r /\ Api.validate_limit max_limit (Some r) = inr r)
  /\ (forall l, l <= 0 ->
        Api.validate_limit max_limit (Some l)
        = inl (Api.ClientSideError "Limit must be positive"))
  /\ Api.validate_limit max_limit None = inr max_limit.
Proof.
  unfold Api.validate_limit in *.
  destruct (Z.leb_spec limit 0) as [Hle|Hlt]; [discriminate|].
  injection Hok as <-.
  split; [lia|]. split; [lia|]. split; [lia|]. split; [lia|].
  split; [|split; [|reflexivity]].
  - intros Hmax. split; [lia|].
    destruct (Z.leb_spec (Z.min max_limit limit) 0) as [?|_]; [lia|].
    f_equal. lia.
  - intros l Hl. destruct (Z.leb_spec l 0); [reflexivity | lia].
Qed.

Lemma validate_limit_bounds_witness :
  Api.validate_limit 1000 (Some 1000) = inr 1000.
Proof.
  destruct (validate_limit_bounds 1000 5000 1000) as (_ & _ & _ & _ & H & _);
    [reflexivity|].
  apply H. lia.
Defined.

End Limits.

Section JsonPatch.

Context {V R : Type}.

Implicit Types (doc : gmap string V) (patch : list (Api.patch_op V)).

Lemma check_root_additions_ok doc patch :
  Api.check_root_additions doc patch = inr tt
  <-> Forall (fun p => ~ Api.adds_new_root_attribute doc p) patch.
Proof.
  induction patch as [|p patch IH]; cbn.
  - split; [constructor | reflexivity].
  - destruct (String.eqb_spec (Api.p_op p) "add") as [Hop|Hop]; cbn [andb].
    + destruct (Nat.eqb_spec (PyStr.count "/" (Api.p_path p)) 1) as [Hc|Hc].
      * destruct (doc !! Api.lstrip "/" (Api.p_path p)) as [v|] eqn:Hd.
        -- rewrite IH. split.
           ++ intros Hf. constructor; [|exact Hf].
              intros (_ & _ & Hnone). congruence.
           ++ intros Hf. now inversion Hf.
        -- split; [discriminate|]. intros Hf. inversion Hf as [|? ? Hp _].
           exfalso. apply Hp. repeat split; assumption.
      * rewrite IH. split.
        -- intros Hf. constructor; [|exact Hf]. intros (_ & Hc' & _). lia.
        -- intros Hf. now inversion Hf.
    + rewrite IH. split.
      * intros Hf. constructor; [|exact Hf]. intros (Hop' & _). congruence.
      * intros Hf. now inversion Hf.
Qed.

Lemma check_root_additions_first doc (l1 l2 : list (Api.patch_op V))
    (p : Api.patch_op V) :
  Forall (fun q => ~ Api.adds_new_root_attribute doc q) l1 ->
  Api.adds_new_root_attribute doc p ->
  Api.check_root_additions doc (l1 ++ p :: l2)
  = inl (Api.ClientSideError (Api.new_attribute_msg (Api.p_path p))).
Proof.
  intros Hl1 (Hop & Hc & Hnone). induction l1 as [|q l1 IH].
  - cbn. rewrite Hop, Hc, Hnone. reflexivity.
  - inversion Hl1 as [|? ? Hq Hl1']; subst. cbn [app Api.check_root_additions].
    destruct (String.eqb_spec (Api.p_op q) "add") as [Hop'|Hop'];
      cbn [andb]; [|now apply IH].
    destruct (Nat.eqb_spec (PyStr.count "/" (Api.p_path q)) 1) as [Hc'|Hc'];
      [|now apply IH].
    destruct (doc !! Api.lstrip "/" (Api.p_path q)) as [v|] eqn:Hd;
      [now apply IH|].
    exfalso. apply Hq. repeat split; assumption.
Qed.

Lemma check_root_additions_error doc patch (e : Api.api_exn) :
  Api.check_root_additions doc patch = inl e ->
  exists p, p ∈ patch /\ Api.adds_new_root_attribute doc p
            /\ e = Api.ClientSideError (Api.new_attribute_msg (Api.p_path p)).
Proof.
  induction patch as [|p patch IH]; cbn; [discriminate|].
  assert (Hrest : Api.check_root_additions doc patch = inl e ->
                  exists p0, p0 ∈ p :: patch
                             /\ Api.adds_new_root_attribute doc p0
                             /\ e = Api.ClientSideError
                                      (Api.new_attribute_msg (Api.p_path p0))).
  { intros Hr. destruct (IH Hr) as (p0 & Hin & Hp0).
    exists p0. split; [now apply list_elem_of_further | exact Hp0]. }
  destruct (String.eqb_spec (Api.p_op p) "add") as [Hop|Hop]; cbn [andb];
    [|exact Hrest].
  destruct (Nat.eqb_spec (PyStr.count "/" (Api.p_path p)) 1) as [Hc|Hc];
    [|exact Hrest].
  destruct (doc !! Api.lstrip "/" (Api.p_path p)) as [v|] eqn:Hd;
    [exact Hrest|].
  intros [= <-]. exists p. split; [apply list_elem_of_here|].
  split; [|reflexivity]. repeat split; assumption.
Qed.

(** X14. [apply_jsonpatch] refuses a patch exactly when one of its
    operations adds, at the root, an attribute the document does not
    have; the error names the path of the first such operation, the
    document is always the one passed in, and [jsonpatch] is given the
    patch only when no operation is refused. *)
Theorem apply_jsonpatch_refuses_iff
    (apply_patch : gmap string V -> list (Api.patch_op V) -> R) doc patch :
  (Exists (Api.adds_new_root_attribute doc) patch
   <-> exists e, Api.apply_jsonpatch apply_patch doc patch = inl e)
  /\ (Forall (fun p => ~ Api.adds_new_root_attribute doc p) patch
      <-> Api.apply_jsonpatch apply_patch doc patch
          = inr (apply_patch doc patch))
  /\ (forall l1 p l2,
        patch = (l1 ++ p :: l2)%list ->
        Forall (fun q => ~ Api.adds_new_root_attribute doc q) l1 ->
        Api.adds_new_root_attribute doc p ->
        Api.apply_jsonpatch apply_patch doc patch
        = inl (Api.ClientSideError (Api.new_attribute_msg (Api.p_path p)))).
Proof.
  unfold Api.apply_jsonpatch. split; [|split].
  - split.
    + intros Hex.
      destruct (Api.check_root_additions doc patch) as [e|[]] eqn:Hc;
        [now exists e|].
      apply check_root_additions_ok in Hc. exfalso.
      apply Exists_exists in Hex as (p & Hin & Hp).
      rewrite Forall_forall in Hc. exact (Hc p Hin Hp).
    + intros [e He].
      destruct (Api.check_root_additions doc patch) as [e'|[]] eqn:Hc;
        [|discriminate].
      apply check_root_additions_error in Hc as (p & Hin & Hp & _).
      apply Exists_exists. now exists p.
  - rewrite <- check_root_additions_ok.
    destruct (Api.check_root_additions doc patch) as [e|[]];
      split; try discriminate; reflexivity.
  - intros l1 p l2 -> Hl1 Hp.
    now rewrite (check_root_additions_first doc l1 l2 p Hl1 Hp).
Qed.

Lemma lstrip_slash (x : string) :
  PyStr.count "/" x = O -> Api.lstrip "/" (String "/" x) = x.
Proof.
  intros Hx. cbn. destruct x as [|c x]; [reflexivity|].
  apply count_zero_cons in Hx as [Hne _]. cbn. now rewrite Hne.
Qed.

(** X15. For a name without a slash, adding [/name] passes the check when
    the document has the attribute [name] and is refused when it has not;
    adding below it, at [/name/child], always passes the check, whether
    or not [name] exists. *)
Theorem root_addition_needs_attribute
    (apply_patch : gmap string V -> list (Api.patch_op V) -> R) doc
    (name child : string) (v : option V)
    (Hname : PyStr.count "/" name = O) (Hchild : PyStr.count "/" child = O) :
  let add path := {| Api.p_op := "add"; Api.p_path := path; Api.p_value := v |} in
  (is_Some (doc !! name) ->
   Api.apply_jsonpatch apply_patch doc [add (String "/" name)]
   = inr (apply_patch doc [add (String "/" name)]))
  /\ (doc !! name = None ->
      Api.apply_jsonpatch apply_patch doc [add (String "/" name)]
      = inl (Api.ClientSideError
               (Api.new_attribute_msg (String "/" name))))
  /\ Api.apply_jsonpatch apply_patch doc
       [add (String "/" (name ++ String "/" child))]
     = inr (apply_patch doc [add (String "/" (name ++ String "/" child))]).
Proof.
  intros add.
  assert (Hc1 : PyStr.count "/" (String "/" name) = 1%nat)
    by (cbn; now rewrite Hname).
  assert (Hc2 : PyStr.count "/" (String "/" (name ++ String "/" child))
                = 2%nat).
  { cbn. rewrite count_app. cbn. rewrite Hname, Hchild. reflexivity. }
  assert (Hpass : forall p,
            ~ Api.adds_new_root_attribute doc p ->
            Api.apply_jsonpatch apply_patch doc [p]
            = inr (apply_patch doc [p])).
  { intros p Hp. unfold Api.apply_jsonpatch.
    now rewrite (proj2 (check_root_additions_ok doc [p]))
      by (repeat constructor; exact Hp). }
  split; [|split].
  - intros [w Hw]. apply Hpass. intros (_ & _ & Hnone).
    cbn [add Api.p_path] in Hnone.
    rewrite (lstrip_slash name Hname) in Hnone. congruence.
  - intros Hnone. unfold Api.apply_jsonpatch.
    pose proof (check_root_additions_first doc [] []
                  (add (String "/" name))) as Hfirst.
    cbn [app] in Hfirst. rewrite Hfirst; [reflexivity | constructor |].
    split; [reflexivity|]. split; [exact Hc1|].
    cbn [add Api.p_path]. now rewrite (lstrip_slash name Hname).
  - apply Hpass. intros (_ & Hc & _). cbn [add Api.p_path] in Hc.
    rewrite Hc2 in Hc. discriminate.
Qed.

End JsonPatch.

Lemma root_addition_needs_attribute_witness :
  Api.apply_jsonpatch (fun d p => d) Cases.doc [Cases.add_op "/owner"]
  = inl (Api.ClientSideError
           "Adding a new attribute (/owner) to the root of  the resource is not allowed").
Proof.
  destruct (root_addition_needs_attribute (fun d p => d) Cases.doc "owner"
              "x" (Some 5%nat)) as (_ & Hnew & _);
    [reflexivity | reflexivity |].
  exact (Hnew eq_refl).
Defined.

Section PatchValue.

Context {V : Type}.

(** X16. [get_patch_value] answers from the first operation whose path is
    the one asked for and ignores whatever follows it: its value, or
    [KeyError] when that operation carries none; with no such operation
    it returns [None]. *)
Theorem get_patch_value_first_match (patch : list (Api.patch_op V))
    (path : string) :
  (Forall (fun q => Api.p_path q <> path) patch ->
   Api.get_patch_value patch path = inr None)
  /\ (forall l1 p l2,
        patch = (l1 ++ p :: l2)%list ->
        Forall (fun q => Api.p_path q <> path) l1 ->
        Api.p_path p = path ->
        Api.get_patch_value patch path
        = match Api.p_value p with
          | Some v => inr (Some v)
          | None => inl Api.PyKeyError
          end)
  /\ (forall v, Api.get_patch_value patch path = inr (Some v) ->
                exists p, p ∈ patch /\ Api.p_path p = path
                          /\ Api.p_value p = Some v).
Proof.
  split; [|split].
  - induction patch as [|q patch IH]; intros Hf; [reflexivity|].
    inversion Hf as [|? ? Hq Hf']; subst. cbn.
    destruct (String.eqb_spec (Api.p_path q) path); [contradiction|].
    now apply IH.
  - intros l1 p l2 -> Hl1 Hp. induction l1 as [|q l1 IH]; cbn.
    + destruct (String.eqb_spec (Api.p_path p) path); [reflexivity|].
      contradiction.
    + inversion Hl1 as [|? ? Hq Hl1']; subst.
      destruct (String.eqb_spec (Api.p_path q) (Api.p_path p));
        [contradiction|]. now apply IH.
  - induction patch as [|q patch IH]; cbn; [discriminate|].
    intros v. destruct (String.eqb_spec (Api.p_path q) path) as [Hq|Hq].
    + destruct (Api.p_value q) as [w|] eqn:Hw; [|discriminate].
      intros [= <-]. exists q. split; [apply list_elem_of_here|].
      now split.
    + intros Hv. destruct (IH v Hv) as (p & Hin & Hp).
      exists p. split; [now apply list_elem_of_further | exact Hp].
Qed.

End PatchValue.

Section RpcNode.

Context `{Libs} {Node : Type} `{Api.Nodes Node}.

(** X17. A name that [is_valid_node_name] accepts is never taken for a
    UUID by [get_rpc_node]: from version 1.5 on it is looked up by name,
    and before that it is answered with [NodeNotFound] without any
    lookup. *)
Theorem valid_name_resolved_by_name (minor : Z) (name : string)
    (Hvalid : Api.is_valid_node_name name = true) :
  Api.get_rpc_node minor name
  = if 5 <=? minor then
      match Api.get_by_name name with
      | Some node => inr node
      | None => inl (Api.NodeNotFound name)
      end
    else inl (Api.NodeNotFound name).
Proof.
  unfold Api.is_valid_node_name in Hvalid.
  apply andb_true_iff in Hvalid as [Hsafe Hnot].
  apply negb_true_iff in Hnot.
  unfold Api.get_rpc_node, Api.allow_node_logical_names.
  now rewrite Hnot, Hsafe.
Qed.

(** X18. [get_rpc_node] returns a node only if it was found by UUID for a
    UUID-like identifier, or by name for a valid node name from version
    1.5 on; it raises [InvalidUuidOrName] only from version 1.5 on, for an
    identifier that is neither UUID-like nor hostname-safe; a UUID-like
    identifier is treated the same in every version. *)
Theorem get_rpc_node_outcomes (minor : Z) (node_ident : string) :
  (forall node,
      Api.get_rpc_node minor node_ident = inr node
      <-> (is_uuid_like node_ident = true
           /\ Api.get_by_uuid node_ident = Some node)
          \/ (Api.is_valid_node_name node_ident = true /\ 5 <= minor
              /\ Api.get_by_name node_ident = Some node))
  /\ (forall x,
        Api.get_rpc_node minor node_ident = inl (Api.InvalidUuidOrName x)
        <-> x = node_ident /\ is_uuid_like node_ident = false
            /\ Api.is_hostname_safe node_ident = false /\ 5 <= minor)
  /\ (is_uuid_like node_ident = true ->
      forall minor', Api.get_rpc_node minor' node_ident
                     = Api.get_rpc_node minor node_ident)
  /\ (minor < 5 -> is_uuid_like node_ident = false ->
      Api.get_rpc_node minor node_ident
      = inl (Api.NodeNotFound node_ident)).
Proof.
  unfold Api.get_rpc_node, Api.is_valid_node_name,
    Api.allow_node_logical_names.
  split; [|split; [|split]].
  - intros node.
    destruct (is_uuid_like node_ident);
      destruct (Z.leb_spec 5 minor) as [Hm|Hm];
      destruct (Api.is_hostname_safe node_ident);
      destruct (Api.get_by_uuid node_ident) as [nu|];
      destruct (Api.get_by_name node_ident) as [nn|];
      cbn [andb negb]; split;
      try (intros [= <-]; auto; fail);
      try discriminate;
      intros [[Hf Hn]|(Hf & Hge & Hn)];
      first [discriminate | lia | congruence].
  - intros x.
    destruct (is_uuid_like node_ident);
      destruct (Z.leb_spec 5 minor) as [Hm|Hm];
      destruct (Api.is_hostname_safe node_ident);
      destruct (Api.get_by_uuid node_ident) as [nu|];
      destruct (Api.get_by_name node_ident) as [nn|];
      split;
      try (intros [= <-]; auto; fail);
      try discriminate;
      intros (-> & Hf1 & Hf2 & Hge);
      first [reflexivity | discriminate | lia].
  - intros Hu minor'. now rewrite Hu.
  - intros Hlt ->. destruct (Z.leb_spec 5 minor); [lia | reflexivity].
Qed.

End RpcNode.

Lemma valid_name_resolved_by_name_witness :
  Api.get_rpc_node 5 "node-1" = inr 7%nat
  /\ Api.get_rpc_node 4 "node-1" = inl (Api.NodeNotFound "node-1").
Proof.
  split.
  - rewrite (valid_name_resolved_by_name 5 "node-1"); reflexivity.
  - rewrite (valid_name_resolved_by_name 4 "node-1"); reflexivity.
Defined.

Section Fields.

(** X19. [check_for_invalid_fields] passes exactly when every requested
    field is one of the object's fields, however often and in whatever
    order the fields are listed; otherwise the error names exactly the
    requested fields that the object lacks. *)
Theorem check_for_invalid_fields_iff (fields object_fields : list string) :
  (Api.check_for_invalid_fields fields object_fields = inr tt
   <-> forall f, f ∈ fields -> f ∈ object_fields)
  /\ (forall e,
        Api.check_for_invalid_fields fields object_fields = inl e ->
        exists invalid : gset string,
          e = Api.InvalidFields invalid /\ invalid <> ∅
          /\ forall f, f ∈ invalid <-> f ∈ fields /\ f ∉ object_fields).
Proof.
  unfold Api.check_for_invalid_fields. cbv zeta.
  destruct (decide (list_to_set fields ∖ list_to_set object_fields
                    = (∅ : gset string))) as [He|Hne].
  - split; [|discriminate]. split; [|reflexivity].
    intros _ f Hf.
    destruct (decide (f ∈ object_fields)) as [Hin|Hout]; [assumption|].
    exfalso.
    assert (f ∈ (list_to_set fields ∖ list_to_set object_fields : gset string))
      as Hbad by set_solver.
    rewrite He in Hbad. set_solver.
  - split.
    + split; [discriminate|]. intros Hall. exfalso. apply Hne.
      apply set_eq. intros f. split; [|set_solver].
      intros Hf. apply elem_of_difference in Hf as [Hf Hnf].
      rewrite elem_of_list_to_set in Hf, Hnf. exfalso. auto.
    + intros e [= <-]. eexists. split; [reflexivity|]. split; [exact Hne|].
      intros f. rewrite elem_of_difference, !elem_of_list_to_set. tauto.
Qed.

End Fields.

Section Passthru.

Context {Ctx Data Val : Type}.
Variables (empty_data : Data) (encode_utf8 : string -> Val).
Variable rpcapi : Api.rpc_call Ctx Data -> Api.rpc_response Val.

(** X20. [vendor_passthru] without a method name fails before the
    conductor is called.  With one it calls the conductor exactly once,
    the driver or the node entry as asked, with the HTTP method in upper
    case and [{}] for missing data; the status is 202 for an asynchronous
    answer and 200 otherwise; an attached answer goes to the response
    stream, text encoded, and leaves the body empty, and any other answer
    is the body and leaves the stream alone. *)
Theorem vendor_passthru_response (context : Ctx)
    (request_method ident method topic : string) (data : option Data)
    (driver_passthru : bool) :
  let o :=
    Api.vendor_passthru Ctx Data Val empty_data encode_utf8 rpcapi context
      request_method ident method topic data driver_passthru in
  let params :=
    Api.Build_rpc_params Ctx Data context ident method
      (Api.upper request_method)
      (match data with None => empty_data | Some d => d end) topic in
  let call :=
    if driver_passthru then Api.DriverVendorPassthru Ctx Data params
    else Api.NodeVendorPassthru Ctx Data params in
  let response := rpcapi call in
  (method = EmptyString ->
   Api.result Ctx Data Val o
   = inl (Api.ClientSideError "Method not specified")
   /\ Api.rpc_calls Ctx Data Val o = []
   /\ Api.app_iter Ctx Data Val o = None)
  /\ (method <> EmptyString ->
      Api.rpc_calls Ctx Data Val o = [call]
      /\ exists resp,
           Api.result Ctx Data Val o = inr resp
           /\ Api.status_code Val resp
              = (if Api.resp_async Val response then 202 else 200)
           /\ (Api.resp_attach Val response = true ->
               Api.body Val resp = None
               /\ Api.return_type_none Val resp = true
               /\ Api.app_iter Ctx Data Val o
                  = Some (match Api.resp_return Val response with
                          | Api.Text _ s => encode_utf8 s
                          | Api.Other _ v => v
                          end))
           /\ (Api.resp_attach Val response = false ->
               Api.body Val resp = Some (Api.resp_return Val response)
               /\ Api.return_type_none Val resp = false
               /\ Api.app_iter Ctx Data Val o = None))
  /\ (forall resp,
        Api.result Ctx Data Val o = inr resp ->
        (Api.body Val resp = None <-> is_Some (Api.app_iter Ctx Data Val o))
        /\ (Api.status_code Val resp = 200
            \/ Api.status_code Val resp = 202)).
Proof.
  intros o params call response. unfold o, Api.vendor_passthru.
  destruct method as [|m ms].
  - cbn. split; [auto|]. split; [intros Hne; now destruct Hne|].
    intros resp Hr. discriminate.
  - fold params. fold call. fold response. split; [discriminate|].
    destruct (Api.resp_attach Val response) eqn:Hatt;
      destruct (Api.resp_async Val response) eqn:Has; cbn.
    all: split;
      [ intros _; split; [reflexivity|]; eexists; split; [reflexivity|];
        cbn; split; [reflexivity|]; split; intros Ha;
        first [discriminate | repeat split; reflexivity]
      | intros resp [= <-]; cbn; split;
        [ split; intros Hx; first [discriminate | reflexivity
                                  | now eexists | now destruct Hx]
        | auto ] ].
Qed.

End Passthru.

Lemma vendor_passthru_response_witness :
  Api.rpc_calls unit unit string
    (Api.vendor_passthru unit unit string tt (fun s => s) Cases.conductor tt
       "post" "node-1" "reboot" "topic" None false)
  = [Api.NodeVendorPassthru unit unit
       (Api.Build_rpc_params unit unit tt "node-1" "reboot" "POST" tt "topic")].
Proof.
  destruct (vendor_passthru_response tt (fun s => s) Cases.conductor tt
              "post" "node-1" "reboot" "topic" None false) as (_ & Hcall & _).
  destruct Hcall as [Hc _]; [discriminate|]. exact Hc.
Defined.
